(** * opd-ai/music: the content pipeline and the playback widget

    A shallow embedding of the JavaScript sources

    - [markdown.js]        (class [MarkdownParser]),
    - [contentManager.js]  (class [ContentManager]),
    - [player.js]          (class [AudioPlayer]),

    followed by the properties of the specification that concern them.

    Conventions.  A JavaScript string is a [string]: a sequence of code
    units, each below 256.  A plain object used as a dictionary is a
    [gmap string string]; a [Map] is an association list in insertion
    order.  A [throw] is the [Throw] constructor of [exc]; [try]/[catch]
    is a [match] on it.  An [async] method is run to completion: every
    [await] of the sources is sequential, so the order of effects is the
    program order; a rejected promise is a [Throw].  The promise of
    [audio.play()] is the one that the sources do not await: its
    callbacks are an event of their own.  A finite number is a binary64
    value. *)

From Stdlib Require Import String Ascii List ZArith QArith Qround Qpower Qabs.
From Stdlib Require Import Lia Lqa Bool.
From Stdlib Require Import DecimalString.
From stdpp Require Import gmap strings.

Import ListNotations.
Local Open Scope string_scope.
Local Open Scope list_scope.

#[local] Arguments String.append !s1 s2 : simpl nomatch.

(** ** JavaScript values and exceptions *)

Inductive error : Type :=
| TypeError                      (* property access on null / undefined *)
| SyntaxError                    (* selector or JSON text that does not parse *)
| NetworkError                   (* fetch rejected *)
| BodyError                      (* the body of a response cannot be read *)
| HttpError (status : Z)         (* thrown by loadContent on a non-ok response *)
| Failure (message : string).    (* new Error(message), or a collaborator's error *)

Inductive exc (A : Type) : Type :=
| Ok (a : A)
| Throw (e : error).
Arguments Ok {A} a.
Arguments Throw {A} e.

Definition exc_bind {A B} (c : exc A) (k : A -> exc B) : exc B :=
  match c with
  | Ok a => k a
  | Throw e => Throw e
  end.

(** The argument of [parseContent]: a string, or one of the two values on
    which every property access throws. *)
Inductive jsval : Type :=
| JStr (s : string)
| JNull
| JUndefined.

(** [v.length] *)
Definition js_length (v : jsval) : exc nat :=
  match v with
  | JStr s => Ok (String.length s)
  | JNull | JUndefined => Throw TypeError
  end.

(** ** String primitives *)

Definition newline : ascii := Ascii.ascii_of_nat 10.
Definition colon : ascii := Ascii.ascii_of_nat 58.
Definition hyphen : ascii := Ascii.ascii_of_nat 45.

(** White space and line terminators among the code units below 256, as
    [String.prototype.trim] removes them: TAB, LF, VT, FF, CR, SP, NBSP. *)
Definition is_white_space (c : ascii) : bool :=
  let n := N_of_ascii c in
  ((9 <=? n)%N && (n <=? 13)%N) || (n =? 32)%N || (n =? 160)%N.

Fixpoint trimStart (s : string) : string :=
  match s with
  | EmptyString => EmptyString
  | String c s' => if is_white_space c then trimStart s' else s
  end.

Fixpoint trimEnd (s : string) : string :=
  match s with
  | EmptyString => EmptyString
  | String c s' =>
      match trimEnd s' with
      | EmptyString => if is_white_space c then EmptyString else String c EmptyString
      | r => String c r
      end
  end.

(** [s.trim()] *)
Definition trim (s : string) : string := trimEnd (trimStart s).

(** [s.split(sep)] for a separator of one code unit: never empty. *)
Fixpoint split (sep : ascii) (s : string) : list string :=
  match s with
  | EmptyString => [EmptyString]
  | String c s' =>
      if Ascii.eqb c sep then EmptyString :: split sep s'
      else match split sep s' with
           | h :: t => String c h :: t
           | [] => [String c EmptyString]
           end
  end.

(** [parts.join(sep)] *)
Fixpoint join (sep : ascii) (parts : list string) : string :=
  match parts with
  | [] => EmptyString
  | [p] => p
  | p :: rest => p +:+ String sep (join sep rest)
  end.

(** [s.padStart(2, '0')] *)
Definition padStart2 (s : string) : string :=
  match String.length s with
  | 0 => "00"
  | 1 => "0" +:+ s
  | _ => s
  end.

(** ** The regular expression of [splitFrontMatter]

    A backtracking matcher for the fragment of the regular-expression
    language that the pattern uses: the two anchors (no [m] flag),
    literal characters, and the two capture groups over the class of all
    characters (white space or not), one lazy and one greedy.  [at0]
    tells whether the current position is the start of the input; [caps]
    collects the captures, in order. *)

Inductive rx : Type :=
| RStart                (* ^ *)
| REnd                  (* $ *)
| RChar (c : ascii)     (* a literal character *)
| RAnyLazy              (* a group: any characters, as few as possible *)
| RAnyGreedy.           (* a group: any characters, as many as possible *)

(** The two loops take the rest of the pattern as a continuation [k]:
    the lazy one tries the continuation first and consumes a character
    only when it fails; the greedy one consumes first. *)
Fixpoint shortest (k : bool -> string -> string -> option (list string))
    (pre : string) (at0 : bool) (s : string) : option (list string) :=
  match k at0 s pre with
  | Some r => Some r
  | None =>
      match s with
      | String a s' => shortest k (pre +:+ String a EmptyString) false s'
      | EmptyString => None
      end
  end.

Fixpoint longest (k : bool -> string -> string -> option (list string))
    (pre : string) (at0 : bool) (s : string) : option (list string) :=
  match s with
  | String a s' =>
      match longest k (pre +:+ String a EmptyString) false s' with
      | Some r => Some r
      | None => k at0 s pre
      end
  | EmptyString => k at0 s pre
  end.

Fixpoint rx_run (p : list rx) : bool -> string -> list string -> option (list string) :=
  match p with
  | [] => fun _ _ caps => Some caps
  | RStart :: p' => fun at0 s caps => if at0 then rx_run p' at0 s caps else None
  | REnd :: p' =>
      fun at0 s caps =>
        match s with
        | EmptyString => rx_run p' at0 s caps
        | String _ _ => None
        end
  | RChar c :: p' =>
      fun _ s caps =>
        match s with
        | String a s' => if Ascii.eqb a c then rx_run p' false s' caps else None
        | EmptyString => None
        end
  | RAnyLazy :: p' =>
      fun at0 s caps =>
        shortest (fun at0' s' pre => rx_run p' at0' s' (caps ++ [pre])) EmptyString at0 s
  | RAnyGreedy :: p' =>
      fun at0 s caps =>
        longest (fun at0' s' pre => rx_run p' at0' s' (caps ++ [pre])) EmptyString at0 s
  end.

(** [s.match(p)] without the [g] flag: the first start index, from the
    left, at which the pattern matches; the result is the list of
    captures [match[1], match[2], ...]. *)
Fixpoint rx_search (p : list rx) (at0 : bool) (s : string) : option (list string) :=
  match rx_run p at0 s [] with
  | Some caps => Some caps
  | None =>
      match s with
      | String _ s' => rx_search p false s'
      | EmptyString => None
      end
  end.

Definition js_match (p : list rx) (s : string) : option (list string) :=
  rx_search p true s.

Definition fence : list rx := [RChar hyphen; RChar hyphen; RChar hyphen; RChar newline].

(** The pattern of the source: start anchor, three hyphens, LF, a lazy
    group of any characters, LF, three hyphens, LF, a greedy group of any
    characters, end anchor. *)
Definition frontMatterPattern : list rx :=
  RStart :: fence ++ RAnyLazy :: RChar newline :: fence ++ [RAnyGreedy; REnd].

(** ** MarkdownParser: the functions that do not call the converter *)

(** [splitFrontMatter(markdown)].  On a value that is not a string the
    call of [markdown.match] throws, and the [catch] returns the same pair
    as the branch without a match. *)
Definition splitFrontMatter (markdown : jsval) : string * jsval :=
  match markdown with
  | JStr text =>
      match js_match frontMatterPattern text with
      | Some [frontMatter; body] => (frontMatter, JStr body)
      | _ => (EmptyString, markdown)
      end
  | JNull | JUndefined => (EmptyString, markdown)
  end.

(** [metadata[key] = value] on an object literal.  Its prototype is
    [Object.prototype], whose accessor [__proto__] receives an assignment
    to that key and ignores a value that is neither an object nor null:
    no own property is created.  Every other key becomes (or updates) an
    own property. *)
Definition obj_set (key value : string) (o : gmap string string) : gmap string string :=
  if String.eqb key "__proto__" then o else <[key := value]> o.

(** The body of the [forEach] callback of [parseFrontMatter]. *)
Definition frontMatterLine (metadata : gmap string string) (line : string)
  : gmap string string :=
  if String.eqb (trim line) EmptyString then metadata
  else
    match split colon line with
    | key :: values =>
        if negb (String.eqb key EmptyString) && negb (Nat.eqb (List.length values) 0)
        then obj_set (trim key) (trim (join colon values)) metadata
        else metadata
    | [] => metadata
    end.

(** [parseFrontMatter(frontMatter)]: nothing in its [try] block throws on
    a string. *)
Definition parseFrontMatter (frontMatter : string) : gmap string string :=
  fold_left frontMatterLine (split newline frontMatter) ∅.

Record ParsedDocument : Type := mkDoc {
  metadata : gmap string string;
  content : string
}.

(** ** The network *)

Inductive fetch_result : Type :=
| FetchRejected                               (* the promise of fetch rejects *)
| FetchResponse (status : Z) (text : string)  (* a response, of any status *)
| FetchUnreadable (status : Z).               (* a response whose body cannot
                                                 be read: text() and json()
                                                 reject *)

(** [response.ok] *)
Definition response_ok (status : Z) : bool :=
  ((200 <=? status) && (status <=? 299))%Z.

(** ** Map objects: association lists in insertion order *)

Fixpoint map_set {V : Type} (k : string) (v : V) (m : list (string * V))
  : list (string * V) :=
  match m with
  | [] => [(k, v)]
  | (k', v') :: m' =>
      if String.eqb k' k then (k', v) :: m' else (k', v') :: map_set k v m'
  end.

Fixpoint map_get {V : Type} (k : string) (m : list (string * V)) : option V :=
  match m with
  | [] => None
  | (k', v') :: m' => if String.eqb k' k then Some v' else map_get k m'
  end.

Definition map_keys {V : Type} (m : list (string * V)) : list string := map fst m.

(** ** The page

    The part of the document that [ContentManager] reads and writes: the
    elements that carry an [id], each with the two descendants the
    renderers look for; the overlays appended to the body; the anchors of
    the navigation menu with their [href] attribute. *)

Record album_card : Type := mkCard {
  card_dir : string;            (* data-album of the inline player *)
  card_cover : string;          (* src of the image *)
  card_title : string;
  card_release_date : string;
  card_track_count : nat
}.

Record section_el : Type := mkSection {
  markdown_content : option string;        (* innerHTML of its .markdown-content *)
  albums_grid : option (list album_card)   (* children of its .albums-grid *)
}.

Record modal : Type := mkModal {
  className : string;
  modal_markup : string         (* what the template interpolates *)
}.

Record document : Type := mkDocument {
  by_id : gmap string section_el;
  overlays : list modal;
  nav_links : list (option string)
}.

(** A located container: an element found through its [id], or one that
    a compound selector reached, of which nothing more is known. *)
Inductive container_ref : Type :=
| ById (id : string)
| Opaque.

Definition is_digit (c : ascii) : bool :=
  let n := N_of_ascii c in ((48 <=? n)%N && (n <=? 57)%N).

Definition is_name_start (c : ascii) : bool :=
  let n := N_of_ascii c in
  ((65 <=? n)%N && (n <=? 90)%N) || ((97 <=? n)%N && (n <=? 122)%N)
  || (n =? 95)%N || (128 <=? n)%N.

Definition is_name_char (c : ascii) : bool :=
  is_name_start c || is_digit c || Ascii.eqb c hyphen.

Fixpoint all_chars (f : ascii -> bool) (s : string) : bool :=
  match s with
  | EmptyString => true
  | String c s' => f c && all_chars f s'
  end.

(** The character [c] does not occur in [s]. *)
Definition free_of (c : ascii) (s : string) : bool :=
  all_chars (fun a => negb (Ascii.eqb a c)) s.

(** An identifier in its plain form: [#id] is then an id selector. *)
Definition simple_ident (s : string) : bool :=
  match s with
  | EmptyString => false
  | String c s' => is_name_start c && all_chars is_name_char s'
  end.

(** [s.substring(1)] *)
Definition substring1 (s : string) : string :=
  match s with
  | EmptyString => EmptyString
  | String _ s' => s'
  end.

(** The section that a menu anchor is bound to: its [href] without the
    first character. *)
Definition fragment_of (href : option string) : string :=
  match href with
  | Some target => substring1 target
  | None => EmptyString
  end.

(** [`${v}`] for a property that may be undefined *)
Definition interpolate (v : option string) : string :=
  match v with
  | Some s => s
  | None => "undefined"
  end.

(** ** ContentManager: state and effects *)

Inductive level : Type := LError | LWarn.

(** The instance fields, the page, and the diagnostics written to the
    console at the levels [error] and [warn] by the methods of
    ContentManager, oldest first.  The diagnostics of the other modules
    (those of MarkdownParser while a document loads) are not recorded. *)
Record ContentManager : Type := mkCM {
  albums : list (string * ParsedDocument);
  contentCache : list (string * ParsedDocument);
  page : document;
  console : list (level * string);
  bound_sections : list string   (* click handlers installed on the menu *)
}.

Definition M (A : Type) : Type := ContentManager -> exc A * ContentManager.

Definition ret {A} (a : A) : M A := fun st => (Ok a, st).

Definition throw {A} (e : error) : M A := fun st => (Throw e, st).

Definition bind {A B} (c : M A) (k : A -> M B) : M B :=
  fun st =>
    match c st with
    | (Ok a, st') => k a st'
    | (Throw e, st') => (Throw e, st')
    end.

Definition try_catch {A} (c : M A) (handler : error -> M A) : M A :=
  fun st =>
    match c st with
    | (Ok a, st') => (Ok a, st')
    | (Throw e, st') => handler e st'
    end.

Definition lift {A} (c : exc A) : M A := fun st => (c, st).

Notation "x <- c ;; k" := (bind c (fun x => k))
  (at level 100, c at next level, right associativity).
Notation "c ;;; k" := (bind c (fun _ => k))
  (at level 100, right associativity).

Fixpoint for_each {A} (l : list A) (body : A -> M unit) : M unit :=
  match l with
  | [] => ret tt
  | x :: l' => body x ;;; for_each l' body
  end.

Definition get_state : M ContentManager := fun st => (Ok st, st).

Definition with_albums (m : list (string * ParsedDocument)) (st : ContentManager)
  : ContentManager :=
  mkCM m (contentCache st) (page st) (console st) (bound_sections st).

Definition with_contentCache (m : list (string * ParsedDocument)) (st : ContentManager)
  : ContentManager :=
  mkCM (albums st) m (page st) (console st) (bound_sections st).

Definition with_page (d : document) (st : ContentManager) : ContentManager :=
  mkCM (albums st) (contentCache st) d (console st) (bound_sections st).

Definition with_console (c : list (level * string)) (st : ContentManager)
  : ContentManager :=
  mkCM (albums st) (contentCache st) (page st) c (bound_sections st).

Definition with_bound_sections (b : list string) (st : ContentManager)
  : ContentManager :=
  mkCM (albums st) (contentCache st) (page st) (console st) b.

Definition log (lv : level) (message : string) : M unit :=
  fun st => (Ok tt, with_console (console st ++ [(lv, message)]) st).

(** [this.albums.set(dir, albumData)] *)
Definition albums_set (dir : string) (albumData : ParsedDocument) : M unit :=
  fun st => (Ok tt, with_albums (map_set dir albumData (albums st)) st).

(** [this.contentCache.set(file, content)] *)
Definition contentCache_set (file : string) (doc : ParsedDocument) : M unit :=
  fun st => (Ok tt, with_contentCache (map_set file doc (contentCache st)) st).

Definition update_page (f : document -> document) : M unit :=
  fun st => (Ok tt, with_page (f (page st)) st).

(** [link.addEventListener('click', ...)] for the section of a link *)
Definition bind_section (section : string) : M unit :=
  fun st => (Ok tt, with_bound_sections (bound_sections st ++ [section]) st).

(** [container.querySelector('.markdown-content')] and
    [container.querySelector('.albums-grid')]: is there one? *)
Definition has_markdown_content (c : container_ref) (d : document) : bool :=
  match c with
  | ById id =>
      match by_id d !! id with
      | Some el => bool_decide (is_Some (markdown_content el))
      | None => false
      end
  | Opaque => false
  end.

Definition has_albums_grid (c : container_ref) (d : document) : bool :=
  match c with
  | ById id =>
      match by_id d !! id with
      | Some el => bool_decide (is_Some (albums_grid el))
      | None => false
      end
  | Opaque => false
  end.

(** [contentDiv.innerHTML = html] *)
Definition set_markdown_content (c : container_ref) (html : string) (d : document)
  : document :=
  match c with
  | ById id =>
      mkDocument
        (alter (fun el => mkSection (Some html) (albums_grid el)) id (by_id d))
        (overlays d) (nav_links d)
  | Opaque => d
  end.

(** [albumsGrid.innerHTML = ''] *)
Definition clear_albums_grid (c : container_ref) (d : document) : document :=
  match c with
  | ById id =>
      mkDocument
        (alter (fun el => mkSection (markdown_content el) (Some [])) id (by_id d))
        (overlays d) (nav_links d)
  | Opaque => d
  end.

(** The page with the children of the grid of [#id] replaced. *)
Definition set_albums_grid (id : string) (cards : list album_card) (d : document)
  : document :=
  mkDocument
    (alter (fun el => mkSection (markdown_content el) (Some cards)) id (by_id d))
    (overlays d) (nav_links d).

(** [albumsGrid.appendChild(albumElement)] *)
Definition append_album (c : container_ref) (card : album_card) (d : document)
  : document :=
  match c with
  | ById id =>
      mkDocument
        (alter (fun el =>
                  mkSection (markdown_content el)
                            (option_map (fun cards => cards ++ [card]) (albums_grid el)))
               id (by_id d))
        (overlays d) (nav_links d)
  | Opaque => d
  end.

(** [document.body.appendChild(modal)] *)
Definition append_overlay (m : modal) (d : document) : document :=
  mkDocument (by_id d) (overlays d ++ [m]) (nav_links d).

(** ** Numbers, as [formatTime] sees them

    A number is NaN, an infinity, or a finite binary64 value, held as the
    rational it denotes.  A division rounds its exact result to the
    nearest binary64 value, ties to the even significand; the remainder
    and [Math.floor] are exact.  [Math.floor] yields NaN, an infinity,
    or an integer. *)

Inductive jsnum : Type :=
| NaN
| Infinity (negative : bool)
| Finite (q : Q).

Inductive jsint : Type :=
| INaN
| IInfinity (negative : bool)
| IInt (z : Z).

(** The integer part of the binary logarithm of a positive rational. *)
Definition binade (q : Q) : Z :=
  let e := (Z.log2 (Qnum q) - Z.log2 (Z.pos (Qden q)))%Z in
  if Qle_bool (2 ^ e)%Q q then e else (e - 1)%Z.

(** The nearest integer, a tie going to the even one. *)
Definition round_half_even (q : Q) : Z :=
  let f := Qfloor q in
  match ((q - inject_Z f) ?= (1 # 2))%Q with
  | Lt => f
  | Gt => (f + 1)%Z
  | Eq => if Z.even f then f else (f + 1)%Z
  end.

(** The exponent of the last place of the binary64 values around [q]:
    53 significant bits, and no exponent below that of the subnormal
    values. *)
Definition ulp_exponent (q : Q) : Z :=
  (Z.max (binade (Qabs q)) (-1022) - 52)%Z.

(** The binary64 value nearest to [q], for [q] within the finite range
    (a quotient by 60 of a binary64 value is). *)
Definition to_double (q : Q) : Q :=
  if Qeq_bool q 0 then 0%Q
  else
    let e := ulp_exponent q in
    (inject_Z (round_half_even (q / 2 ^ e)) * 2 ^ e)%Q.

(** Whether a rational is a binary64 value. *)
Definition is_double (q : Q) : bool := Qeq_bool (to_double q) q.

(** [x / 60] *)
Definition div60 (x : jsnum) : jsnum :=
  match x with
  | NaN => NaN
  | Infinity b => Infinity b
  | Finite q => Finite (to_double (q / 60))
  end.

(** The integer part, rounding toward zero. *)
Definition Qtruncate (q : Q) : Z :=
  if Qlt_le_dec q 0 then Qceiling q else Qfloor q.

(** [x % 60]: the remainder has the sign of the dividend and is exact;
    an infinite dividend gives NaN. *)
Definition rem60 (x : jsnum) : jsnum :=
  match x with
  | NaN | Infinity _ => NaN
  | Finite q => Finite (q - 60 * inject_Z (Qtruncate (q / 60)))
  end.

(** [Math.floor(x)] *)
Definition math_floor (x : jsnum) : jsint :=
  match x with
  | NaN => INaN
  | Infinity b => IInfinity b
  | Finite q => IInt (Qfloor q)
  end.

(** The decimal digits of an integer. *)
Definition decimal (z : Z) : string := NilZero.string_of_int (Z.to_int z).

(** Whether the decimal [candidate] reads back as the binary64 value [v]. *)
Definition reads_as (v candidate : Z) : bool :=
  Qeq_bool (to_double (inject_Z candidate)) (inject_Z v).

(** The decimal of [k] significant digits that reads back as [v], the
    nearest to [v] when the one below and the one above both do (the
    even one on a tie): as the integer it denotes, digits and zeros. *)
Definition with_digits (v : Z) (k : Z) : option Z :=
  let scale := (10 ^ (Z.of_nat (String.length (decimal v)) - k))%Z in
  let lo := (v / scale * scale)%Z in
  let hi := (lo + scale)%Z in
  match reads_as v lo, reads_as v hi with
  | true, true =>
      match (v - lo ?= hi - v)%Z with
      | Lt => Some lo
      | Gt => Some hi
      | Eq => if Z.even (v / scale) then Some lo else Some hi
      end
  | true, false => Some lo
  | false, true => Some hi
  | false, false => None
  end.

Fixpoint shortest_decimal_from (v : Z) (k : Z) (tries : nat) : Z :=
  match tries with
  | O => v
  | S tries' =>
      match with_digits v k with
      | Some c => c
      | None => shortest_decimal_from v (k + 1)%Z tries'
      end
  end.

(** What the conversion of the positive integral binary64 value [v] to a
    string denotes: the decimal with the fewest significant digits that
    reads back as [v] (17 digits always do).  Below 2^53 every integer is
    a binary64 value, so that decimal is [v] itself. *)
Definition shortest_decimal (v : Z) : Z :=
  if (v <? 2 ^ 53)%Z then v else shortest_decimal_from v 1 17.

Fixpoint strip_trailing_zeros (s : string) : string :=
  match s with
  | EmptyString => EmptyString
  | String c s' =>
      match strip_trailing_zeros s' with
      | EmptyString => if Ascii.eqb c "0" then EmptyString else String c EmptyString
      | rest => String c rest
      end
  end.

(** The exponent notation of a decimal of more than 21 digits. *)
Definition exponent_form (printed : string) : string :=
  let exponent := decimal (Z.of_nat (String.length printed) - 1) in
  match strip_trailing_zeros printed with
  | EmptyString => EmptyString
  | String c EmptyString => String c ("e+" +:+ exponent)
  | String c rest => String c ("." +:+ rest +:+ "e+" +:+ exponent)
  end.

(** [String(v)] for an integral binary64 value that is not negative:
    digits followed by zeros below 10^21, exponent notation from there. *)
Definition magnitude_to_string (v : Z) : string :=
  let c := shortest_decimal v in
  if (c <? 10 ^ 21)%Z then decimal c else exponent_form (decimal c).

(** [String(n)] for the result of [Math.floor]. *)
Definition int_to_string (n : jsint) : string :=
  match n with
  | INaN => "NaN"
  | IInfinity false => "Infinity"
  | IInfinity true => "-Infinity"
  | IInt z =>
      if (z <? 0)%Z then "-" +:+ magnitude_to_string (- z)
      else magnitude_to_string z
  end.

(** [AudioPlayer.formatTime(seconds)].  No step of the [try] block throws
    on a number, so the [catch] that returns ['0:00'] is never entered. *)
Definition formatTime (seconds : jsnum) : string :=
  let minutes := math_floor (div60 seconds) in
  let remainingSeconds := math_floor (rem60 seconds) in
  int_to_string minutes +:+ ":" +:+ padStart2 (int_to_string remainingSeconds).

(** ** The specification's reading of the document format

    Two definitions that follow the words of the specification, line by
    line, to be compared with [splitFrontMatter] and [parseFrontMatter]. *)

(** The lines up to the first fence line, and the lines after it. *)
Fixpoint lines_until_fence (ls : list string) : option (list string * list string) :=
  match ls with
  | [] => None
  | l :: ls' =>
      if String.eqb l "---" then Some ([], ls')
      else match lines_until_fence ls' with
           | Some (block, body) => Some (l :: block, body)
           | None => None
           end
  end.

(** A fence line at the very start and a matching fence line later:
    everything between is the metadata block, everything after the
    closing fence is the body; otherwise the block is empty and the whole
    input is the body. *)
Definition spec_splitFrontMatter (text : string) : string * string :=
  match split newline text with
  | first :: rest =>
      if String.eqb first "---" then
        match lines_until_fence rest with
        | Some (block, body) => (join newline block, join newline body)
        | None => (EmptyString, text)
        end
      else (EmptyString, text)
  | [] => (EmptyString, text)
  end.

(** The text before the first colon and the text after it. *)
Fixpoint first_colon (s : string) : option (string * string) :=
  match s with
  | EmptyString => None
  | String c s' =>
      if Ascii.eqb c colon then Some (EmptyString, s')
      else match first_colon s' with
           | Some (k, v) => Some (String c k, v)
           | None => None
           end
  end.

(** The entry of a line: the trimmed key and the trimmed remainder after
    the first colon; none for a blank line, a line without a colon, or a
    line whose key is empty. *)
Definition spec_entry (line : string) : option (string * string) :=
  if String.eqb (trim line) EmptyString then None
  else match first_colon line with
       | Some (k, v) =>
           if String.eqb (trim k) EmptyString then None else Some (trim k, trim v)
       | None => None
       end.

(** Entries recorded line after line, a later one replacing an earlier
    one with the same key. *)
Definition spec_parseFrontMatter (block : string) : gmap string string :=
  fold_left (fun m line =>
               match spec_entry line with
               | Some (k, v) => <[k := v]> m
               | None => m
               end)
            (split newline block) ∅.

(** ** Direct descriptions of the matcher and of the line callback

    What the pattern and the callback compute, without the matcher and
    without the array of segments; the lemmas below prove them equal to
    the definitions above. *)

Definition opening : string := String hyphen (String hyphen (String hyphen (String newline EmptyString))).
Definition closing : string := String newline opening.

Fixpoint strip_prefix (p s : string) : option string :=
  match p with
  | EmptyString => Some s
  | String a p' =>
      match s with
      | String b s' => if Ascii.eqb b a then strip_prefix p' s' else None
      | EmptyString => None
      end
  end.

(** The text before the leftmost occurrence of [closing], and the text
    after it. *)
Fixpoint find_close (s : string) : option (string * string) :=
  match strip_prefix closing s with
  | Some body => Some (EmptyString, body)
  | None =>
      match s with
      | String a s' =>
          match find_close s' with
          | Some (block, body) => Some (String a block, body)
          | None => None
          end
      | EmptyString => None
      end
  end.

(** The entry that the callback records for a line, if any: the test on
    the key comes before the trimming. *)
Definition line_entry (line : string) : option (string * string) :=
  if String.eqb (trim line) EmptyString then None
  else match first_colon line with
       | Some (k, v) =>
           if String.eqb k EmptyString then None else Some (trim k, trim v)
       | None => None
       end.

(** ** Sample worlds, for concrete runs *)

Definition text_of (lines : list string) : string := join newline lines.

Definition sample_marked (markdown : string) : exc string :=
  if String.eqb markdown EmptyString then Throw (Failure "nothing to convert")
  else Ok ("<p>" +:+ markdown +:+ "</p>").

Definition sample_fetch (path : string) : fetch_result :=
  if String.eqb path "content/albums/index.json" then
    FetchResponse 200 "index"
  else if String.eqb path "content/albums/first/info.md" then
    FetchResponse 200
      (text_of ["---"; "title: First"; "release_date: 2020"; "tracks:"; "---";
                "The first album."])
  else if String.eqb path "content/albums/second/info.md" then
    FetchResponse 200
      (text_of ["---"; "title: Second"; "tracks: one, two"; "---";
                "The second album."])
  else if String.eqb path "content/albums/gone/info.md" then
    FetchResponse 404 "Not Found"
  else if String.eqb path "content/albums/plain/info.md" then
    FetchResponse 200 "Prose only."
  else if String.eqb path "content/albums/cut/info.md" then
    FetchUnreadable 200
  else if String.eqb path "content/bio.md" then
    FetchResponse 200 "About the artist."
  else if String.eqb path "content/news.md" then
    FetchResponse 200 "News."
  else if String.eqb path "content/home.md" then
    FetchResponse 200 "Welcome."
  else FetchRejected.

Definition offline_fetch (path : string) : fetch_result := FetchRejected.

(** The sample network behind a server that answers the request for the
    album index with status 500, and a body that reads as the index. *)
Definition index_500_fetch (path : string) : fetch_result :=
  if String.eqb path "content/albums/index.json" then FetchResponse 500 "index"
  else sample_fetch path.

Definition sample_index (text : string) : exc (list string) :=
  Ok ["first"; "gone"; "second"].

Definition plain_index (text : string) : exc (list string) :=
  Ok ["plain"; "first"].

Definition no_compound (d : document) (selector : string) : exc bool :=
  Throw SyntaxError.

(** The widths of the sample runs: half of the track, and its start. *)
Definition sample_percent (t d : Q) : option string :=
  if Qeq_bool (t / d) (1 # 2) then Some "50%"
  else if Qeq_bool t 0 then Some "0%"
  else None.

(** The elements with an id in the markup of the page, and its menu. *)
Definition sample_page : document :=
  mkDocument
    (list_to_map
       [("home", mkSection (Some EmptyString) None);
        ("featured", mkSection (Some EmptyString) None);
        ("music", mkSection None (Some []));
        ("about", mkSection (Some EmptyString) None);
        ("news", mkSection (Some EmptyString) None);
        ("audio-player-template", mkSection None None)])
    []
    [Some "#home"; Some "#music"; Some "#about"; Some "#news"].

(** The same page with a third anchor in the menu that has no [href]. *)
Definition page_with_bare_anchor : document :=
  mkDocument (by_id sample_page) []
             [Some "#home"; Some "#music"; None; Some "#about"; Some "#news"].

(** [new ContentManager()], on a page. *)
Definition new_ContentManager (d : document) : ContentManager :=
  mkCM [] [] d [] [].

(** ** The collaborators

    What the sources call and do not define: the prose-to-markup
    converter, the network, the JSON reader applied to the album index,
    the selector engine on selectors that are not a plain [#id], and the
    printing of a floating-point percentage together with its reading
    by the style of an element. *)

Section World.

(** [marked.parse(text)]: a string, or an exception. *)
Variable marked_parse : string -> exc string.

(** [fetch(path)] *)
Variable fetch : string -> fetch_result.

(** [(await response.json()).albumDirectories], iterated: the listed
    identifiers, or the exception raised on the way. *)
Variable albumDirectories_of : string -> exc (list string).

(** [document.querySelector(selector)] for a selector that is neither a
    plain id selector nor rejected outright by the model: whether an
    element is found, or the exception of the selector parser. *)
Variable compound_selector : document -> string -> exc bool.

(** For a finite [t] and a finite [d] that is not zero: the text of
    [(t / d) * 100] followed by [%], when that text is a width that the
    style of the progress bar accepts (a percentage that is not
    negative); nothing when the style ignores it (a negative percentage,
    or an infinity after an overflow). *)
Variable percent_text : Q -> Q -> option string.

(** *** MarkdownParser *)

(** [parseMarkdown(markdown)] *)
Definition parseMarkdown (markdown : string) : string :=
  match marked_parse markdown with
  | Ok html => html
  | Throw _ => markdown
  end.

(** The [try] block of [parseContent].  The diagnostic after the split
    reads [content.length], which throws when the content is not a
    string; the converter is then never reached. *)
Definition parseContent_try (markdown : jsval) : exc ParsedDocument :=
  let '(frontMatter, content) := splitFrontMatter markdown in
  exc_bind (js_length content) (fun _ =>
    match content with
    | JStr body => Ok (mkDoc (parseFrontMatter frontMatter) (parseMarkdown body))
    | JNull | JUndefined => Throw TypeError
    end).

(** [parseContent(markdown)] *)
Definition parseContent (markdown : jsval) : ParsedDocument :=
  match parseContent_try markdown with
  | Ok result => result
  | Throw _ => mkDoc ∅ EmptyString
  end.

(** The [try] block of [loadContent]. *)
Definition loadContent_try (filepath : string) : exc ParsedDocument :=
  match fetch filepath with
  | FetchRejected => Throw NetworkError
  | FetchResponse status text =>
      if response_ok status then Ok (parseContent (JStr text))
      else Throw (HttpError status)
  | FetchUnreadable status =>
      if response_ok status then Throw BodyError
      else Throw (HttpError status)
  end.

(** [loadContent(filepath)]: the document, or null. *)
Definition loadContent (filepath : string) : option ParsedDocument :=
  match loadContent_try filepath with
  | Ok parsedContent => Some parsedContent
  | Throw _ => None
  end.

(** *** ContentManager: discovery *)

Definition loadAlbumData (albumDir : string) : M (option ParsedDocument) :=
  try_catch
    (match loadContent ("content/albums/" +:+ albumDir +:+ "/info.md") with
     | None => throw (Failure "Album data parsing failed")
     | Some albumData =>
         let m1 := obj_set "coverPath" ("content/albums/" +:+ albumDir +:+ "/cover.jpg")
                           (metadata albumData) in
         let m2 := obj_set "tracksDir" ("content/albums/" +:+ albumDir +:+ "/tracks/") m1 in
         let m3 := obj_set "lyricsDir" ("content/albums/" +:+ albumDir +:+ "/lyrics/") m2 in
         ret (Some (mkDoc m3 (content albumData)))
     end)
    (fun _ =>
       log LError ("Failed to load album data for " +:+ albumDir) ;;;
       ret None).

(** [discoverAlbums()].  The status of the response to the request for
    the index is logged and not tested: [response.json()] is called on a
    response of any status. *)
Definition discoverAlbums : M unit :=
  try_catch
    (match fetch "content/albums/index.json" with
     | FetchRejected => throw NetworkError
     | FetchResponse _ text =>
         albumDirs <- lift (albumDirectories_of text) ;;
         for_each albumDirs (fun dir =>
           albumData <- loadAlbumData dir ;;
           match albumData with
           | Some data => albums_set dir data
           | None => ret tt
           end)
     | FetchUnreadable _ => throw BodyError
     end)
    (fun error =>
       log LError "Album discovery failed" ;;;
       throw error).

(** The record that [loadAlbumData] returns, without the console. *)
Definition albumRecord (albumDir : string) : option ParsedDocument :=
  match loadContent ("content/albums/" +:+ albumDir +:+ "/info.md") with
  | None => None
  | Some albumData =>
      Some (mkDoc
              (obj_set "lyricsDir" ("content/albums/" +:+ albumDir +:+ "/lyrics/")
                 (obj_set "tracksDir" ("content/albums/" +:+ albumDir +:+ "/tracks/")
                    (obj_set "coverPath" ("content/albums/" +:+ albumDir +:+ "/cover.jpg")
                       (metadata albumData))))
              (content albumData))
  end.

(** The albums mapping after the loop of [discoverAlbums] over [dirs]. *)
Definition discovered (dirs : list string) (m : list (string * ParsedDocument))
  : list (string * ParsedDocument) :=
  fold_left (fun m dir =>
               match albumRecord dir with
               | Some data => map_set dir data m
               | None => m
               end) dirs m.

(** The diagnostics of that loop: one per album that did not load. *)
Definition discovery_failures (dirs : list string) : list (level * string) :=
  flat_map (fun dir =>
              match albumRecord dir with
              | Some _ => []
              | None => [(LError, "Failed to load album data for " +:+ dir)]
              end) dirs.

Definition staticFiles : list string := ["bio"; "news"; "home"].

Definition loadStaticContent : M unit :=
  for_each staticFiles (fun file =>
    try_catch
      (match loadContent ("content/" +:+ file +:+ ".md") with
       | Some doc => contentCache_set file doc
       | None => log LWarn ("Failed to load static content: " +:+ file)
       end)
      (fun _ => log LError ("Error loading static file: " +:+ file))).

Definition setupNavigationHandlers : M unit :=
  st <- get_state ;;
  for_each (nav_links (page st)) (fun href =>
    match href with
    | None => throw TypeError
    | Some target => bind_section (substring1 target)
    end).

Definition initialize : M unit :=
  try_catch
    (discoverAlbums ;;;
     loadStaticContent ;;;
     setupNavigationHandlers)
    (fun error =>
       log LError "Initialization failed" ;;;
       throw error).

(** *** ContentManager: rendering *)

(** [createAlbumElement(dir, albumData)]: the template reads
    [albumData.metadata.tracks.length]. *)
Definition createAlbumElement (dir : string) (albumData : ParsedDocument)
  : exc album_card :=
  let m := metadata albumData in
  match m !! "tracks" with
  | None => Throw TypeError
  | Some tracks =>
      Ok (mkCard dir
                 (interpolate (m !! "coverPath"))
                 (interpolate (m !! "title"))
                 (interpolate (m !! "release_date"))
                 (String.length tracks))
  end.

(** The cards that the loop of [renderMusicCatalog] appends, and whether
    it reaches the end of the albums. *)
Fixpoint catalog_cards (l : list (string * ParsedDocument)) : list album_card * bool :=
  match l with
  | [] => ([], true)
  | entry :: l' =>
      match createAlbumElement (fst entry) (snd entry) with
      | Ok card => let '(cards, complete) := catalog_cards l' in (card :: cards, complete)
      | Throw _ => ([], false)
      end
  end.

Definition renderMusicCatalog (container : container_ref) : M unit :=
  st <- get_state ;;
  if has_albums_grid container (page st) then
    update_page (clear_albums_grid container) ;;;
    for_each (albums st) (fun entry =>
      albumElement <- lift (createAlbumElement (fst entry) (snd entry)) ;;
      update_page (append_album container albumElement))
  else log LError "Albums grid container not found".

Definition renderStaticContent (type : string) (container : container_ref)
  : M unit :=
  st <- get_state ;;
  match map_get type (contentCache st) with
  | Some doc =>
      if has_markdown_content container (page st)
      then update_page (set_markdown_content container (content doc))
      else log LError ("Content container not found for: " +:+ type)
  | None => log LWarn ("No cached content found for: " +:+ type)
  end.

(** [document.querySelector(`#${sectionId}`)].  A fragment that begins
    with a digit, or is empty, does not make a selector; a plain
    identifier selects by id; anything else is left to the engine. *)
Definition locate (d : document) (sectionId : string) : exc (option container_ref) :=
  match sectionId with
  | EmptyString => Throw SyntaxError
  | String c _ =>
      if is_digit c then Throw SyntaxError
      else if simple_ident sectionId then
        Ok (match by_id d !! sectionId with
            | Some _ => Some (ById sectionId)
            | None => None
            end)
      else
        exc_bind (compound_selector d ("#" +:+ sectionId))
                 (fun found => Ok (if found : bool then Some Opaque else None))
  end.

Definition loadSection (sectionId : string) : M unit :=
  if String.eqb sectionId EmptyString then ret tt
  else
    st <- get_state ;;
    contentContainer <- lift (locate (page st) sectionId) ;;
    match contentContainer with
    | None => log LError ("Section container not found: " +:+ sectionId)
    | Some container =>
        try_catch
          (if String.eqb sectionId "music" then renderMusicCatalog container
           else if String.eqb sectionId "about" then renderStaticContent "bio" container
           else if String.eqb sectionId "news" then renderStaticContent "news" container
           else if String.eqb sectionId "home" then renderStaticContent "home" container
           else log LWarn ("Unknown section: " +:+ sectionId))
          (fun _ => log LError ("Error loading section " +:+ sectionId))
    end.

(** *** ContentManager: lyrics *)

Definition loadLyrics (lyricsFile : string) : M string :=
  try_catch
    (match loadContent lyricsFile with
     | Some doc => ret (content doc)
     | None => throw TypeError          (* null.content *)
     end)
    (fun _ =>
       log LError "Error loading lyrics" ;;;
       ret "Lyrics not available").

Definition showLyricsModal (lyricsContent : string) : M unit :=
  update_page (append_overlay (mkModal "modal lyrics-modal" lyricsContent)).

(** The click handler that [setupModalHandlers] installs on a lyrics
    button whose [data-lyrics] is [lyricsFile]. *)
Definition lyricsClick (lyricsFile : string) : M unit :=
  lyrics <- loadLyrics lyricsFile ;;
  showLyricsModal lyrics.

(** *** AudioPlayer

    The elements of the shadow tree, cloned from the template of the
    page, which declares all five: the media element, the play button,
    the progress bar and the two time labels. *)

Record AudioPlayer : Type := mkPlayer {
  audio_src : string;
  audio_paused : bool;
  audio_currentTime : jsnum;
  audio_duration : jsnum;
  audio_error : option nat;        (* MediaError code, once errored *)
  playButton_label : string;       (* aria-label *)
  playButton_playing : bool;       (* class list has 'playing' *)
  progress_width : string;         (* style.width *)
  currentTime_text : string;
  duration_text : string
}.

Definition updatePlayButton (playing : bool) (w : AudioPlayer) : AudioPlayer :=
  mkPlayer (audio_src w) (audio_paused w) (audio_currentTime w) (audio_duration w)
           (audio_error w)
           (if playing then "Pause" else "Play") playing
           (progress_width w) (currentTime_text w) (duration_text w).

(** What the assignment of the template [${percent}%] to [style.width]
    installs, if anything.  The texts NaN% and Infinity% are not widths,
    and the style ignores an assignment that it cannot read; a division
    by an infinite duration gives zero, of either sign, which prints as
    0. *)
Definition width_of_percent (t d : jsnum) : option string :=
  match t, d with
  | Finite t', Finite d' => if Qeq_bool d' 0 then None else percent_text t' d'
  | Finite _, Infinity _ => Some "0%"
  | _, _ => None
  end.

Definition updateProgress (w : AudioPlayer) : AudioPlayer :=
  mkPlayer (audio_src w) (audio_paused w) (audio_currentTime w) (audio_duration w)
           (audio_error w) (playButton_label w) (playButton_playing w)
           (match width_of_percent (audio_currentTime w) (audio_duration w) with
            | Some width => width
            | None => progress_width w
            end)
           (formatTime (audio_currentTime w)) (duration_text w).

Definition setDuration (w : AudioPlayer) : AudioPlayer :=
  mkPlayer (audio_src w) (audio_paused w) (audio_currentTime w) (audio_duration w)
           (audio_error w) (playButton_label w) (playButton_playing w)
           (progress_width w) (currentTime_text w) (formatTime (audio_duration w)).

Definition resetPlayer (w : AudioPlayer) : AudioPlayer :=
  mkPlayer (audio_src w) (audio_paused w) (audio_currentTime w) (audio_duration w)
           (audio_error w) "Play" false
           "0%" (currentTime_text w) (duration_text w).

(** [loadTrack(trackUrl)]: the assignment to [audio.src], then
    [resetPlayer].  What the media element itself does on a new source is
    the browser's and is not modelled. *)
Definition loadTrack (trackUrl : string) (w : AudioPlayer) : AudioPlayer :=
  resetPlayer
    (mkPlayer trackUrl (audio_paused w) (audio_currentTime w) (audio_duration w)
              (audio_error w) (playButton_label w) (playButton_playing w)
              (progress_width w) (currentTime_text w) (duration_text w)).

(** [togglePlay()].  On a paused element it calls [audio.play()] and
    installs the two callbacks on the promise: the button is theirs, and
    they run when the promise settles, not now (never, when [play()]
    returns no promise).  On a playing element it
    calls [audio.pause()] and sets the button at once.  The [paused] flag
    belongs to the media element: the widget reads it and never writes
    it, and what [play()] and [pause()] make of it is the browser's. *)
Definition togglePlay (w : AudioPlayer) : AudioPlayer :=
  if audio_paused w then w
  else updatePlayButton false w.

(** What reaches the widget: a click on the button, the settlement of
    the promise of an earlier [audio.play()], and the events of the media
    element.  The listeners of [timeupdate], [loadedmetadata], [ended]
    and [error] have an effect on the widget; the others only write to
    the console, and stand here for what the browser has done to the
    element before it fires them: [PausedChanged] is a change of
    [audio.paused], whatever its cause.  An event carries the new value
    of the field of the media element that the browser has set. *)
Inductive player_event : Type :=
| Click
| PlaySettled (fulfilled : bool)
| PausedChanged (paused : bool)
| TimeUpdate (t : jsnum)
| LoadedMetadata (d : jsnum)
| Ended
| MediaFailure (code : nat).

Definition dispatch (w : AudioPlayer) (e : player_event) : AudioPlayer :=
  match e with
  | Click => togglePlay w
  | PlaySettled fulfilled => updatePlayButton fulfilled w
  | PausedChanged paused =>
      mkPlayer (audio_src w) paused (audio_currentTime w) (audio_duration w)
               (audio_error w) (playButton_label w) (playButton_playing w)
               (progress_width w) (currentTime_text w) (duration_text w)
  | TimeUpdate t =>
      updateProgress
        (mkPlayer (audio_src w) (audio_paused w) t (audio_duration w)
                  (audio_error w) (playButton_label w) (playButton_playing w)
                  (progress_width w) (currentTime_text w) (duration_text w))
  | LoadedMetadata d =>
      setDuration
        (mkPlayer (audio_src w) (audio_paused w) (audio_currentTime w) d
                  (audio_error w) (playButton_label w) (playButton_playing w)
                  (progress_width w) (currentTime_text w) (duration_text w))
  | Ended => resetPlayer w
  | MediaFailure code =>
      mkPlayer (audio_src w) (audio_paused w) (audio_currentTime w) (audio_duration w)
               (Some code) (playButton_label w) (playButton_playing w)
               (progress_width w) (currentTime_text w) (duration_text w)
  end.

(** What is done to the widget: an event reaches it, or its owner calls
    [loadTrack]. *)
Inductive player_call : Type :=
| Event (e : player_event)
| LoadTrack (trackUrl : string).

Definition perform (w : AudioPlayer) (c : player_call) : AudioPlayer :=
  match c with
  | Event e => dispatch w e
  | LoadTrack trackUrl => loadTrack trackUrl w
  end.

(** The widget as the constructor leaves it, from the template. *)
Definition new_player : AudioPlayer :=
  mkPlayer EmptyString true (Finite 0) NaN None "Play" false EmptyString "0:00" "0:00".

(** *** ContentManager: the album overlay, the dismissal of overlays,
    and the start of the page *)

(** [createTrackList(tracks, albumDir)].  A metadata value is a string,
    the parser records nothing else, and a string has no [map] method:
    the call [tracks.map] throws on a string as it does on undefined. *)
Definition createTrackList (tracks : option string) (albumDir : string) : exc string :=
  match tracks with
  | Some _ => Throw TypeError
  | None => Throw TypeError
  end.

(** [showAlbumDetails(dir, albumData)]: the markup of the overlay, track
    list included, is built before the overlay is appended to the body. *)
Definition showAlbumDetails (dir : string) (albumData : ParsedDocument) : M unit :=
  trackList <- lift (createTrackList (metadata albumData !! "tracks") dir) ;;
  update_page (append_overlay
                 (mkModal "modal album-details" (content albumData +:+ trackList))).

(** Where a click on an overlay lands. *)
Inductive click_target : Type :=
| OnCloseButton
| OnBackground       (* the event target is the overlay itself *)
| OnContent.

(** [modal.remove()], for the overlay at position [i] of the body; a
    node that is not there is left alone. *)
Definition remove_overlay (i : nat) (d : document) : document :=
  mkDocument (by_id d) (delete i (overlays d)) (nav_links d).

(** The two click listeners that [setupModalHandlers] installs on an
    overlay. *)
Definition modalClick (i : nat) (target : click_target) : M unit :=
  match target with
  | OnCloseButton => update_page (remove_overlay i)
  | OnBackground => update_page (remove_overlay i)
  | OnContent => ret tt
  end.

(** The listener of main.js, on the manager it has just constructed. *)
Definition startup : M unit :=
  initialize ;;;
  loadSection "home".

(** The page that a request for a section leaves. *)
Definition rendered_page (sectionId : string) (st : ContentManager) : document :=
  let static := fun key =>
    match map_get key (contentCache st) with
    | Some doc =>
        if has_markdown_content (ById sectionId) (page st)
        then set_markdown_content (ById sectionId) (content doc) (page st)
        else page st
    | None => page st
    end in
  if String.eqb sectionId "music" then
    if has_albums_grid (ById sectionId) (page st)
    then set_albums_grid sectionId (fst (catalog_cards (albums st))) (page st)
    else page st
  else if String.eqb sectionId "about" then static "bio"
  else if String.eqb sectionId "news" then static "news"
  else if String.eqb sectionId "home" then static "home"
  else page st.

(** *** AudioPlayer.handleError *)

Definition errorMessages : list (string * string) :=
  [("MEDIA_ERR_ABORTED", "Playback aborted by user");
   ("MEDIA_ERR_NETWORK", "Network error while loading");
   ("MEDIA_ERR_DECODE", "Audio decoding failed");
   ("MEDIA_ERR_SRC_NOT_SUPPORTED", "Audio format not supported")].

(** The message that [handleError] writes: the key at index [code - 1]
    of the table, then the entry of that key, then the fallback. *)
Definition handleError_message (w : AudioPlayer) : string :=
  let key :=
    match audio_error w with
    | Some (S n) => nth_error (map fst errorMessages) n
    | Some O => None
    | None => None
    end in
  match key with
  | Some k =>
      match map_get k errorMessages with
      | Some message => message
      | None => "Unknown error"
      end
  | None => "Unknown error"
  end.

(** * Properties *)

(** ** Strings *)

Lemma append_nil_r (s : string) : s +:+ EmptyString = s.
Proof. induction s as [|a s IH]; simpl; [reflexivity | now rewrite IH]. Qed.

Lemma append_assoc (s t u : string) : (s +:+ t) +:+ u = s +:+ (t +:+ u).
Proof. induction s as [|a s IH]; simpl; [reflexivity | now rewrite IH]. Qed.

Lemma append_cons (a : ascii) (s t : string) :
  String a s +:+ t = String a (s +:+ t).
Proof. reflexivity. Qed.

Lemma append_snoc (pre : string) (a : ascii) (s : string) :
  (pre +:+ String a EmptyString) +:+ s = pre +:+ String a s.
Proof. now rewrite append_assoc. Qed.

Lemma ascii_eqb_true (a b : ascii) : Ascii.eqb a b = true -> a = b.
Proof. apply Ascii.eqb_eq. Qed.

Lemma strip_prefix_sound (p s r : string) :
  strip_prefix p s = Some r -> s = p +:+ r.
Proof.
  revert s. induction p as [|a p IH]; intros s H; simpl in *.
  - now inversion H.
  - destruct s as [|b s]; [discriminate|].
    destruct (Ascii.eqb b a) eqn:E; [|discriminate].
    apply ascii_eqb_true in E. subst b. f_equal. now apply IH.
Qed.

Lemma strip_prefix_complete (p r : string) : strip_prefix p (p +:+ r) = Some r.
Proof.
  induction p as [|a p IH]; simpl; [reflexivity|].
  now rewrite Ascii.eqb_refl.
Qed.

Lemma find_close_sound (s block body : string) :
  find_close s = Some (block, body) -> s = block +:+ closing +:+ body.
Proof.
  revert block body. induction s as [|a s IH]; intros block body H.
  - simpl in H. discriminate.
  - cbn [find_close] in H.
    destruct (strip_prefix closing (String a s)) as [b|] eqn:E.
    + inversion H; subst. now apply strip_prefix_sound in E.
    + destruct (find_close s) as [[bl bo]|]; [|discriminate].
      inversion H; subst. simpl. f_equal. now apply IH.
Qed.

(** No occurrence of [closing] begins inside the block that
    [find_close] returns: the block is the shortest one. *)
Lemma find_close_leftmost (s block body : string) :
  find_close s = Some (block, body) ->
  forall pre rest post,
    block = pre +:+ rest -> rest <> EmptyString ->
    strip_prefix closing (rest +:+ closing +:+ body) <> Some post.
Proof.
  revert block body. induction s as [|a s IH]; intros block body H pre rest post Hb Hr.
  - simpl in H. discriminate.
  - cbn [find_close] in H.
    destruct (strip_prefix closing (String a s)) as [b|] eqn:E.
    + injection H as Hbl Hbo. rewrite <- Hbl in Hb.
      destruct pre; simpl in Hb; [|discriminate].
      now symmetry in Hb.
    + destruct (find_close s) as [[bl bo]|] eqn:F; [|discriminate].
      injection H as Hbl Hbo. rewrite <- Hbl in Hb. subst bo.
      pose proof (find_close_sound _ _ _ F) as Hs.
      destruct pre as [|c pre].
      * change (EmptyString +:+ rest) with rest in Hb.
        rewrite <- Hb, append_cons, <- Hs, E. discriminate.
      * rewrite append_cons in Hb. injection Hb as Hc Hbl'.
        now apply (IH bl body eq_refl pre rest post).
Qed.

Lemma find_close_none (s : string) :
  find_close s = None ->
  forall block body, s <> block +:+ closing +:+ body.
Proof.
  induction s as [|a s IH]; intros H block body Hs.
  - destruct block; discriminate.
  - cbn [find_close] in H.
    destruct (strip_prefix closing (String a s)) as [b|] eqn:E; [discriminate|].
    destruct (find_close s) as [[bl bo]|] eqn:F; [discriminate|].
    destruct block as [|c block].
    + rewrite Hs in E.
      change (EmptyString +:+ closing +:+ body) with (closing +:+ body) in E.
      now rewrite strip_prefix_complete in E.
    + rewrite append_cons in Hs. injection Hs as Ha Hs.
      now apply (IH eq_refl block body).
Qed.

(** ** The pattern of [splitFrontMatter] *)

Lemma longest_to_end (caps : list string) (pre : string) (at0 : bool) (s : string) :
  longest (fun at0' s' pre' => rx_run [REnd] at0' s' (caps ++ [pre'])) pre at0 s
  = Some (caps ++ [pre +:+ s]).
Proof.
  revert pre at0. induction s as [|a s IH]; intros pre at0.
  - simpl. now rewrite append_nil_r.
  - cbn [longest]. rewrite IH. now rewrite append_snoc.
Qed.

Lemma rx_run_greedy_end (caps : list string) (at0 : bool) (s : string) :
  rx_run [RAnyGreedy; REnd] at0 s caps = Some (caps ++ [s]).
Proof.
  change (rx_run [RAnyGreedy; REnd] at0 s caps)
    with (longest (fun at0' s' pre' => rx_run [REnd] at0' s' (caps ++ [pre']))
                  EmptyString at0 s).
  apply longest_to_end.
Qed.

Lemma rx_run_lazy (p : list rx) (caps : list string) (at0 : bool) (s : string) :
  rx_run (RAnyLazy :: p) at0 s caps
  = shortest (fun at0' s' pre' => rx_run p at0' s' (caps ++ [pre'])) EmptyString at0 s.
Proof. reflexivity. Qed.

Lemma rx_run_start (p : list rx) (caps : list string) (at0 : bool) (s : string) :
  rx_run (RStart :: p) at0 s caps = if at0 then rx_run p at0 s caps else None.
Proof. reflexivity. Qed.

Lemma rx_run_closing (p : list rx) (at0 : bool) (s : string) (caps : list string) :
  rx_run (RChar newline :: fence ++ p) at0 s caps
  = match strip_prefix closing s with
    | Some body => rx_run p false body caps
    | None => None
    end.
Proof.
  unfold fence, closing, opening.
  do 5 (destruct s as [|? s]; [reflexivity|];
        cbn [rx_run strip_prefix app];
        destruct (Ascii.eqb _ _); [|reflexivity]).
  reflexivity.
Qed.

Lemma rx_run_opening (p : list rx) (at0 : bool) (s : string) (caps : list string) :
  rx_run (fence ++ p) at0 s caps
  = match strip_prefix opening s with
    | Some rest => rx_run p false rest caps
    | None => None
    end.
Proof.
  unfold fence, opening.
  do 4 (destruct s as [|? s]; [reflexivity|];
        cbn [rx_run strip_prefix app];
        destruct (Ascii.eqb _ _); [|reflexivity]).
  reflexivity.
Qed.

Lemma shortest_find (caps : list string) (pre : string) (at0 : bool) (s : string) :
  shortest (fun at0' s' pre' =>
              rx_run (RChar newline :: fence ++ [RAnyGreedy; REnd]) at0' s' (caps ++ [pre']))
           pre at0 s
  = match find_close s with
    | Some (block, body) => Some (caps ++ [pre +:+ block; body])
    | None => None
    end.
Proof.
  revert pre at0. induction s as [|a s IH]; intros pre at0.
  - reflexivity.
  - cbn [shortest find_close]. rewrite rx_run_closing.
    destruct (strip_prefix closing (String a s)) as [body|].
    + rewrite rx_run_greedy_end.
      rewrite append_nil_r, <- app_assoc. reflexivity.
    + rewrite IH. destruct (find_close s) as [[block body]|]; [|reflexivity].
      now rewrite append_snoc.
Qed.

(** An attempt that does not begin at the start of the input fails at
    the anchor, so the search has one attempt only. *)
Lemma rx_search_anchored (p : list rx) (s : string) :
  rx_search (RStart :: p) false s = None.
Proof. induction s as [|a s IH]; [reflexivity | exact IH]. Qed.

Lemma js_match_frontMatter (text : string) :
  js_match frontMatterPattern text
  = match strip_prefix opening text with
    | Some rest =>
        match find_close rest with
        | Some (block, body) => Some [block; body]
        | None => None
        end
    | None => None
    end.
Proof.
  unfold js_match, frontMatterPattern.
  assert (H : rx_run (RStart :: fence ++ RAnyLazy :: RChar newline :: fence ++ [RAnyGreedy; REnd])
                true text []
              = match strip_prefix opening text with
                | Some rest =>
                    match find_close rest with
                    | Some (block, body) => Some [block; body]
                    | None => None
                    end
                | None => None
                end).
  { rewrite rx_run_start, rx_run_opening.
    destruct (strip_prefix opening text) as [rest|]; [|reflexivity].
    rewrite rx_run_lazy, shortest_find.
    destruct (find_close rest) as [[block body]|]; reflexivity. }
  destruct text as [|a text]; cbn [rx_search]; rewrite H.
  - reflexivity.
  - rewrite rx_search_anchored.
    destruct (strip_prefix opening (String a text)) as [rest|]; [|reflexivity].
    destruct (find_close rest) as [[block body]|]; reflexivity.
Qed.

Lemma splitFrontMatter_scan (text : string) :
  splitFrontMatter (JStr text)
  = match strip_prefix opening text with
    | Some rest =>
        match find_close rest with
        | Some (block, body) => (block, JStr body)
        | None => (EmptyString, JStr text)
        end
    | None => (EmptyString, JStr text)
    end.
Proof.
  unfold splitFrontMatter. rewrite js_match_frontMatter.
  destruct (strip_prefix opening text) as [rest|]; [|reflexivity].
  destruct (find_close rest) as [[block body]|]; reflexivity.
Qed.

(** Whatever the input, the second component is a string. *)
Lemma splitFrontMatter_string (text : string) :
  exists frontMatter body, splitFrontMatter (JStr text) = (frontMatter, JStr body).
Proof.
  rewrite splitFrontMatter_scan.
  destruct (strip_prefix opening text) as [rest|]; [|eauto].
  destruct (find_close rest) as [[block body]|]; eauto.
Qed.

(** The pattern matches exactly the inputs of the shape
    opening fence, block, LF, closing fence, LF, body; the block it
    returns is the shortest one. *)
Lemma splitFrontMatter_fenced (block body : string) :
  (forall pre rest post,
      block = pre +:+ rest -> rest <> EmptyString ->
      strip_prefix closing (rest +:+ closing +:+ body) <> Some post) ->
  splitFrontMatter (JStr (opening +:+ block +:+ closing +:+ body))
  = (block, JStr body).
Proof.
  intros Hmin. rewrite splitFrontMatter_scan, strip_prefix_complete.
  destruct (find_close (block +:+ closing +:+ body)) as [[b bo]|] eqn:F.
  - pose proof (find_close_sound _ _ _ F) as Hs.
    pose proof (find_close_leftmost _ _ _ F) as Hl.
    assert (Hb : b = block).
    { clear F. revert b Hs Hl Hmin. induction block as [|c block IH]; intros b Hs Hl Hmin.
      - destruct b as [|d b]; [reflexivity|]. exfalso.
        apply (Hl EmptyString (String d b) body eq_refl); [discriminate|].
        rewrite <- Hs. exact (strip_prefix_complete closing body).
      - destruct b as [|d b].
        + exfalso.
          apply (Hmin EmptyString (String c block) bo eq_refl); [discriminate|].
          rewrite Hs. exact (strip_prefix_complete closing bo).
        + rewrite !append_cons in Hs. injection Hs as Hc Hs. subst d. f_equal.
          apply IH; [exact Hs | |].
          * intros pre rest post Hp Hr. apply (Hl (String c pre) rest post); [|exact Hr].
            now rewrite append_cons, Hp.
          * intros pre rest post Hp Hr. apply (Hmin (String c pre) rest post); [|exact Hr].
            now rewrite append_cons, Hp. }
    subst b. f_equal. f_equal.
    apply (String.app_inj block) in Hs. now apply (String.app_inj closing) in Hs.
  - exfalso. now apply (find_close_none _ F block body).
Qed.

Lemma splitFrontMatter_unfenced (text : string) :
  (forall block body, text <> opening +:+ block +:+ closing +:+ body) ->
  splitFrontMatter (JStr text) = (EmptyString, JStr text).
Proof.
  intros H. rewrite splitFrontMatter_scan.
  destruct (strip_prefix opening text) as [rest|] eqn:E; [|reflexivity].
  destruct (find_close rest) as [[block body]|] eqn:F; [|reflexivity].
  exfalso. apply (H block body).
  apply strip_prefix_sound in E. apply find_close_sound in F. now rewrite E, F.
Qed.


(** ** The line callback of [parseFrontMatter] *)

Lemma split_nonempty (sep : ascii) (s : string) : split sep s <> [].
Proof.
  destruct s as [|c s]; simpl; [discriminate|].
  destruct (Ascii.eqb c sep); [discriminate|].
  destruct (split sep s); discriminate.
Qed.

Lemma join_cons (sep : ascii) (p : string) (rest : list string) :
  rest <> [] -> join sep (p :: rest) = p +:+ String sep (join sep rest).
Proof. destruct rest; [contradiction | reflexivity]. Qed.

Lemma join_split (sep : ascii) (s : string) : join sep (split sep s) = s.
Proof.
  induction s as [|c s IH]; [reflexivity|].
  pose proof (split_nonempty sep s) as Hne.
  cbn [split]. destruct (Ascii.eqb c sep) eqn:E.
  - apply ascii_eqb_true in E. subst c.
    rewrite (join_cons _ _ _ Hne), IH. reflexivity.
  - destruct (split sep s) as [|h t] eqn:S; [contradiction|].
    destruct t as [|h' t].
    + cbn [join] in *. now rewrite IH.
    + rewrite join_cons by discriminate. rewrite join_cons in IH by discriminate.
      rewrite append_cons. now rewrite IH.
Qed.

(** The first segment is the text before the first colon, and the other
    segments, joined again, are the text after it. *)
Lemma split_first_colon (line : string) :
  split colon line
  = match first_colon line with
    | Some (k, v) => k :: split colon v
    | None => [line]
    end.
Proof.
  induction line as [|c line IH]; [reflexivity|].
  cbn [split first_colon]. destruct (Ascii.eqb c colon); [reflexivity|].
  rewrite IH. destruct (first_colon line) as [[k v]|]; reflexivity.
Qed.

Lemma frontMatterLine_entry (m : gmap string string) (line : string) :
  frontMatterLine m line
  = match line_entry line with
    | Some (k, v) => obj_set k v m
    | None => m
    end.
Proof.
  unfold frontMatterLine, line_entry.
  destruct (String.eqb (trim line) EmptyString); [reflexivity|].
  rewrite split_first_colon.
  destruct (first_colon line) as [[k v]|].
  - rewrite join_split.
    pose proof (split_nonempty colon v) as Hne.
    destruct (split colon v); [contradiction|].
    destruct (String.eqb k EmptyString); reflexivity.
  - destruct (String.eqb line EmptyString); reflexivity.
Qed.

Lemma parseFrontMatter_entries (block : string) :
  parseFrontMatter block
  = fold_left (fun m line =>
                 match line_entry line with
                 | Some (k, v) => obj_set k v m
                 | None => m
                 end)
              (split newline block) ∅.
Proof.
  unfold parseFrontMatter. generalize (∅ : gmap string string).
  induction (split newline block) as [|l ls IH]; intros m; [reflexivity|].
  cbn [fold_left]. now rewrite frontMatterLine_entry, IH.
Qed.

Lemma obj_set_lookup (k v : string) (m : gmap string string) (k' : string) :
  obj_set k v m !! k'
  = if String.eqb k "__proto__" then m !! k'
    else if String.eqb k k' then Some v else m !! k'.
Proof.
  unfold obj_set. destruct (String.eqb k "__proto__"); [reflexivity|].
  destruct (String.eqb_spec k k') as [->|Hne].
  - apply lookup_insert_eq.
  - now apply lookup_insert_ne.
Qed.

(** Lines after the last one that yields the key [k] leave its value. *)
Lemma fold_entries_other (lines : list string) (m : gmap string string) (k : string) :
  Forall (fun l => forall k' v', line_entry l = Some (k', v') -> k' <> k) lines ->
  fold_left frontMatterLine lines m !! k = m !! k.
Proof.
  revert m. induction lines as [|l ls IH]; intros m H; [reflexivity|].
  inversion H as [|? ? Hl Hls]; subst. cbn [fold_left].
  rewrite (IH _ Hls), frontMatterLine_entry.
  destruct (line_entry l) as [[k' v']|] eqn:E; [|reflexivity].
  rewrite obj_set_lookup. destruct (String.eqb k' "__proto__"); [reflexivity|].
  destruct (String.eqb_spec k' k) as [->|]; [|reflexivity].
  now contradiction (Hl k v' eq_refl).
Qed.

(** What [parseFrontMatter] does on every block: a line that yields an
    entry whose key is not [__proto__], followed by lines that do not
    yield that key, decides the value of the key (the last such line
    wins). *)
Lemma parseFrontMatter_last_wins (block : string) (before after : list string)
      (line k v : string) :
  split newline block = before ++ line :: after ->
  line_entry line = Some (k, v) ->
  k <> "__proto__" ->
  Forall (fun l => forall k' v', line_entry l = Some (k', v') -> k' <> k) after ->
  parseFrontMatter block !! k = Some v.
Proof.
  intros Hs He Hk Ha. unfold parseFrontMatter. rewrite Hs, fold_left_app.
  cbn [fold_left]. rewrite (fold_entries_other _ _ _ Ha), frontMatterLine_entry, He.
  rewrite obj_set_lookup.
  destruct (String.eqb_spec k "__proto__"); [contradiction|].
  now rewrite String.eqb_refl.
Qed.

(** A key that no line yields is absent. *)
Lemma parseFrontMatter_absent (block k : string) :
  Forall (fun l => forall k' v', line_entry l = Some (k', v') -> k' <> k)
         (split newline block) ->
  parseFrontMatter block !! k = None.
Proof.
  intros H. unfold parseFrontMatter. now rewrite (fold_entries_other _ _ _ H).
Qed.

(** Where the callback and the specification's entry agree: on every
    line but one whose key segment is white space only. *)
Lemma line_entry_spec (line : string) :
  (forall k v, first_colon line = Some (k, v) -> k <> EmptyString -> trim k <> EmptyString) ->
  line_entry line = spec_entry line.
Proof.
  intros H. unfold line_entry, spec_entry.
  destruct (String.eqb (trim line) EmptyString); [reflexivity|].
  destruct (first_colon line) as [[k v]|]; [|reflexivity].
  destruct (String.eqb_spec k EmptyString) as [->|Hk]; [reflexivity|].
  destruct (String.eqb_spec (trim k) EmptyString) as [Ht|]; [|reflexivity].
  now contradiction (H k v eq_refl Hk).
Qed.

(** On a block without such a line and without the key [__proto__], the
    parser computes the mapping of the specification. *)
Lemma parseFrontMatter_refines_spec (block : string) :
  Forall (fun line =>
            (forall k v, first_colon line = Some (k, v) ->
                         k <> EmptyString -> trim k <> EmptyString) /\
            (forall k v, line_entry line = Some (k, v) -> k <> "__proto__"))
         (split newline block) ->
  parseFrontMatter block = spec_parseFrontMatter block.
Proof.
  rewrite parseFrontMatter_entries. unfold spec_parseFrontMatter.
  generalize (∅ : gmap string string).
  induction (split newline block) as [|l ls IH]; intros m H; [reflexivity|].
  inversion H as [|? ? [Hl1 Hl2] Hls]; subst. cbn [fold_left].
  rewrite <- (line_entry_spec l Hl1).
  destruct (line_entry l) as [[k v]|] eqn:E.
  - unfold obj_set at 2. destruct (String.eqb_spec k "__proto__") as [Hp|_].
    + now contradiction (Hl2 k v eq_refl).
    + now apply IH.
  - now apply IH.
Qed.

(** *** Where the pattern and the specification's reading agree

    On a document made of an opening fence line, one or more block lines
    none of which is a fence, a closing fence line, and at least one more
    line (so that a line break follows the closing fence). *)

Lemma free_of_cons (c a : ascii) (s : string) :
  free_of c (String a s) = true -> a <> c /\ free_of c s = true.
Proof.
  unfold free_of. cbn. intros H. apply andb_true_iff in H as [Ha Hs].
  split; [|exact Hs]. intros ->. now rewrite Ascii.eqb_refl in Ha.
Qed.

Lemma split_line (sep : ascii) (l s : string) :
  free_of sep l = true -> split sep (l +:+ String sep s) = l :: split sep s.
Proof.
  induction l as [|a l IH]; intros H.
  - cbn. now rewrite Ascii.eqb_refl.
  - apply free_of_cons in H as [Ha Hl]. rewrite append_cons. cbn [split].
    destruct (Ascii.eqb_spec a sep) as [|_]; [contradiction|].
    now rewrite (IH Hl).
Qed.

Lemma split_last_line (sep : ascii) (l : string) :
  free_of sep l = true -> split sep l = [l].
Proof.
  induction l as [|a l IH]; intros H; [reflexivity|].
  apply free_of_cons in H as [Ha Hl]. cbn [split].
  destruct (Ascii.eqb_spec a sep) as [|_]; [contradiction|].
  now rewrite (IH Hl).
Qed.

Lemma split_join (sep : ascii) (ls : list string) :
  ls <> [] -> Forall (fun l => free_of sep l = true) ls ->
  split sep (join sep ls) = ls.
Proof.
  intros Hne H. induction H as [|l ls Hl Hls IH]; [contradiction|].
  destruct ls as [|l' ls].
  - cbn [join]. now apply split_last_line.
  - rewrite join_cons by discriminate. rewrite (split_line _ _ _ Hl).
    f_equal. apply IH. discriminate.
Qed.

Lemma join_app (sep : ascii) (l1 l2 : list string) :
  l1 <> [] -> l2 <> [] ->
  join sep (l1 ++ l2) = join sep l1 +:+ String sep (join sep l2).
Proof.
  intros H1 H2. induction l1 as [|a l1 IH]; [contradiction|].
  destruct l1 as [|b l1].
  - cbn [app]. now rewrite join_cons.
  - change ((a :: b :: l1) ++ l2) with (a :: ((b :: l1) ++ l2)).
    rewrite !join_cons by (try discriminate; destruct l1; discriminate).
    rewrite IH by discriminate. now rewrite append_assoc.
Qed.

(** Inside a line the scan for the closing fence moves on. *)
Lemma find_close_line (l s : string) :
  free_of newline l = true ->
  find_close (l +:+ s)
  = match find_close s with
    | Some (block, body) => Some (l +:+ block, body)
    | None => None
    end.
Proof.
  induction l as [|a l IH]; intros H.
  - cbn. destruct (find_close s) as [[block body]|]; reflexivity.
  - apply free_of_cons in H as [Ha Hl]. rewrite append_cons. cbn [find_close].
    assert (Hs : strip_prefix closing (String a (l +:+ s)) = None).
    { unfold closing. cbn [strip_prefix].
      destruct (Ascii.eqb_spec a newline) as [|_]; [contradiction|reflexivity]. }
    rewrite Hs, (IH Hl). destruct (find_close s) as [[block body]|]; reflexivity.
Qed.

(** A line that is not a fence does not begin like one. *)
Lemma not_a_fence (l s : string) :
  free_of newline l = true -> l <> "---" ->
  strip_prefix opening (l +:+ String newline s) = None.
Proof.
  intros H Hne. unfold opening.
  destruct l as [|c1 l]; [reflexivity|].
  apply free_of_cons in H as [H1 H]. rewrite append_cons. cbn [strip_prefix].
  destruct (Ascii.eqb_spec c1 hyphen) as [->|]; [|reflexivity].
  destruct l as [|c2 l]; [reflexivity|].
  apply free_of_cons in H as [H2 H]. rewrite append_cons. cbn [strip_prefix].
  destruct (Ascii.eqb_spec c2 hyphen) as [->|]; [|reflexivity].
  destruct l as [|c3 l]; [reflexivity|].
  apply free_of_cons in H as [H3 H]. rewrite append_cons. cbn [strip_prefix].
  destruct (Ascii.eqb_spec c3 hyphen) as [->|]; [|reflexivity].
  destruct l as [|c4 l]; [now contradiction Hne|].
  apply free_of_cons in H as [H4 H]. rewrite append_cons. cbn [strip_prefix].
  destruct (Ascii.eqb_spec c4 newline) as [|]; [contradiction|reflexivity].
Qed.

Lemma join_first_line (l : string) (ls : list string) (s : string) :
  exists s', join newline (l :: ls) +:+ String newline s = l +:+ String newline s'.
Proof.
  destruct ls as [|l' ls].
  - now exists s.
  - exists (join newline (l' :: ls) +:+ String newline s).
    rewrite join_cons by discriminate. now rewrite append_assoc.
Qed.

Lemma find_close_block (block_lines : list string) (body : string) :
  block_lines <> [] ->
  Forall (fun l => free_of newline l = true /\ l <> "---") block_lines ->
  find_close (join newline block_lines +:+ closing +:+ body)
  = Some (join newline block_lines, body).
Proof.
  intros Hne H. induction H as [|l ls [Hl Hf] Hls IH]; [contradiction|].
  destruct ls as [|l' ls].
  - cbn [join]. rewrite (find_close_line _ _ Hl).
    assert (Hc : find_close (closing +:+ body) = Some (EmptyString, body)).
    { destruct (closing +:+ body) eqn:E; [discriminate|]. cbn [find_close].
      rewrite <- E. now rewrite strip_prefix_complete. }
    rewrite Hc. now rewrite append_nil_r.
  - rewrite join_cons by discriminate. rewrite append_assoc.
    rewrite (find_close_line _ _ Hl). rewrite append_cons. cbn [find_close].
    inversion Hls as [|? ? [Hl' Hf'] Hls']; subst.
    assert (Hs : strip_prefix closing
                   (String newline (join newline (l' :: ls) +:+ closing +:+ body))
                 = None).
    { unfold closing at 1. cbn [strip_prefix]. rewrite Ascii.eqb_refl.
      destruct (join_first_line l' ls (opening +:+ body)) as [s' Hs'].
      change (closing +:+ body) with (String newline (opening +:+ body)).
      rewrite Hs'. now apply not_a_fence. }
    rewrite Hs, IH by discriminate. reflexivity.
Qed.

Lemma lines_until_fence_block (block_lines body_lines : list string) :
  Forall (fun l => free_of newline l = true /\ l <> "---") block_lines ->
  lines_until_fence (block_lines ++ "---" :: body_lines) = Some (block_lines, body_lines).
Proof.
  induction 1 as [|l ls [Hl Hf] Hls IH]; [reflexivity|].
  cbn [app lines_until_fence].
  destruct (String.eqb_spec l "---") as [|_]; [contradiction|]. now rewrite IH.
Qed.

(** On such a document the parser splits as the specification says. *)
Lemma splitFrontMatter_agrees_with_spec (block_lines body_lines : list string) :
  block_lines <> [] -> body_lines <> [] ->
  Forall (fun l => free_of newline l = true /\ l <> "---") block_lines ->
  Forall (fun l => free_of newline l = true) body_lines ->
  let text := text_of ("---" :: block_lines ++ "---" :: body_lines) in
  splitFrontMatter (JStr text) = (text_of block_lines, JStr (text_of body_lines)) /\
  spec_splitFrontMatter text = (text_of block_lines, text_of body_lines).
Proof.
  intros Hb Hbody Hblock Hfree. cbv zeta. unfold text_of. split.
  - rewrite splitFrontMatter_scan.
    assert (Ht : join newline ("---" :: block_lines ++ "---" :: body_lines)
                 = opening +:+ join newline block_lines +:+ closing +:+
                   join newline body_lines).
    { rewrite join_cons by (destruct block_lines; discriminate).
      rewrite join_app by (try assumption; discriminate).
      rewrite join_cons by assumption. reflexivity. }
    rewrite Ht, strip_prefix_complete, find_close_block by assumption.
    reflexivity.
  - unfold spec_splitFrontMatter. rewrite split_join.
    + cbn [String.eqb Ascii.eqb Bool.eqb]. now rewrite lines_until_fence_block.
    + discriminate.
    + constructor; [reflexivity|]. apply Forall_app. split.
      * eapply Forall_impl; [exact Hblock|]. now intros l [Hl _].
      * constructor; [reflexivity | exact Hfree].
Qed.

(** ** MarkdownParser.parseContent *)

(** C1.  The parser is total.  [parseContent] is a function into
    [ParsedDocument]: it has a result on every input and nothing
    escapes it.  On every string the [try] block itself completes: the
    metadata is the parsed block before the body, and the content is
    the converted body, or the body as it is when the converter throws
    on it.  An input on which the block does fail (a property read on
    null or undefined) gives empty metadata and the empty string. *)
Theorem parseContent_total (text : string) :
  (exists frontMatter body,
      splitFrontMatter (JStr text) = (frontMatter, JStr body) /\
      parseContent_try (JStr text) = Ok (parseContent (JStr text)) /\
      metadata (parseContent (JStr text)) = parseFrontMatter frontMatter /\
      content (parseContent (JStr text))
      = match marked_parse body with
        | Ok html => html
        | Throw _ => body
        end) /\
  parseContent JNull = mkDoc ∅ EmptyString /\
  parseContent JUndefined = mkDoc ∅ EmptyString.
Proof.
  split; [|split; reflexivity].
  destruct (splitFrontMatter_string text) as (frontMatter & body & Hs).
  exists frontMatter, body. split; [exact Hs|].
  unfold parseContent, parseContent_try. rewrite Hs. cbn.
  repeat split.
Qed.

(** ** ContentManager: discovery *)

Lemma loadAlbumData_run (albumDir : string) (st : ContentManager) :
  loadAlbumData albumDir st
  = (Ok (albumRecord albumDir),
     match albumRecord albumDir with
     | Some _ => st
     | None =>
         with_console
           (console st ++ [(LError, "Failed to load album data for " +:+ albumDir)]) st
     end).
Proof.
  unfold loadAlbumData, albumRecord, try_catch.
  destruct (loadContent _) as [albumData|]; reflexivity.
Qed.

Lemma discover_loop (dirs : list string) (st : ContentManager) :
  for_each dirs (fun dir =>
                   albumData <- loadAlbumData dir ;;
                   match albumData with
                   | Some data => albums_set dir data
                   | None => ret tt
                   end) st
  = (Ok tt,
     with_console (console st ++ discovery_failures dirs)
                  (with_albums (discovered dirs (albums st)) st)).
Proof.
  revert st. induction dirs as [|dir dirs IH]; intros st.
  - cbn. unfold discovery_failures. cbn. rewrite app_nil_r. now destruct st.
  - cbn [for_each]. unfold bind at 1. unfold bind at 1.
    rewrite loadAlbumData_run.
    unfold discovered, discovery_failures. cbn [fold_left flat_map].
    fold (discovered dirs). fold (discovery_failures dirs).
    destruct (albumRecord dir) as [data|].
    + unfold albums_set. rewrite IH. reflexivity.
    + unfold ret. rewrite IH. cbn. unfold with_console, with_albums. cbn.
      now rewrite <- app_assoc.
Qed.

Lemma discoverAlbums_rejected (st : ContentManager) :
  fetch "content/albums/index.json" = FetchRejected ->
  discoverAlbums st
  = (Throw NetworkError,
     with_console (console st ++ [(LError, "Album discovery failed")]) st).
Proof. intros H. unfold discoverAlbums, try_catch. now rewrite H. Qed.

Lemma discoverAlbums_unreadable (st : ContentManager) (status : Z) (text : string)
      (e : error) :
  fetch "content/albums/index.json" = FetchResponse status text ->
  albumDirectories_of text = Throw e ->
  discoverAlbums st
  = (Throw e, with_console (console st ++ [(LError, "Album discovery failed")]) st).
Proof.
  intros Hf Hd. unfold discoverAlbums, try_catch. rewrite Hf.
  unfold bind at 1, lift. now rewrite Hd.
Qed.

Lemma discoverAlbums_listed (st : ContentManager) (status : Z) (text : string)
      (dirs : list string) :
  fetch "content/albums/index.json" = FetchResponse status text ->
  albumDirectories_of text = Ok dirs ->
  discoverAlbums st
  = (Ok tt,
     with_console (console st ++ discovery_failures dirs)
                  (with_albums (discovered dirs (albums st)) st)).
Proof.
  intros Hf Hd. unfold discoverAlbums, try_catch. rewrite Hf.
  unfold bind at 1, lift. rewrite Hd. now rewrite discover_loop.
Qed.

(** The albums mapping after discovery: an identifier of the index whose
    document loads is a key, with its record. *)
Lemma map_get_set {V : Type} (k k' : string) (v : V) (m : list (string * V)) :
  map_get k' (map_set k v m) = if String.eqb k k' then Some v else map_get k' m.
Proof.
  induction m as [|[k0 v0] m IH]; cbn.
  - destruct (String.eqb k k'); reflexivity.
  - destruct (String.eqb_spec k0 k) as [->|Hne]; cbn.
    + destruct (String.eqb k k'); reflexivity.
    + rewrite IH. destruct (String.eqb_spec k0 k') as [->|]; [|reflexivity].
      destruct (String.eqb_spec k k') as [->|]; [contradiction|reflexivity].
Qed.

Lemma discovered_get_skip (dirs : list string) (m : list (string * ParsedDocument))
      (dir : string) :
  albumRecord dir = None -> map_get dir (discovered dirs m) = map_get dir m.
Proof.
  intros Hn. revert m. induction dirs as [|d dirs IH]; intros m; [reflexivity|].
  unfold discovered. cbn [fold_left]. fold (discovered dirs).
  rewrite IH. destruct (albumRecord d) as [data|] eqn:E; [|reflexivity].
  rewrite map_get_set. destruct (String.eqb_spec d dir) as [->|]; [|reflexivity].
  congruence.
Qed.

Lemma discovered_get_keep (dirs : list string) (m : list (string * ParsedDocument))
      (dir : string) (data : ParsedDocument) :
  albumRecord dir = Some data ->
  map_get dir m = Some data ->
  map_get dir (discovered dirs m) = Some data.
Proof.
  intros Hr. revert m. induction dirs as [|d dirs IH]; intros m Hm; [exact Hm|].
  unfold discovered. cbn [fold_left]. fold (discovered dirs).
  apply IH. destruct (albumRecord d) as [data'|] eqn:E; [|exact Hm].
  rewrite map_get_set. destruct (String.eqb_spec d dir) as [->|]; [congruence|exact Hm].
Qed.

Lemma discovered_get_loaded (dirs : list string) (m : list (string * ParsedDocument))
      (dir : string) (data : ParsedDocument) :
  In dir dirs -> albumRecord dir = Some data ->
  map_get dir (discovered dirs m) = Some data.
Proof.
  intros Hin Hr. revert m. induction dirs as [|d dirs IH]; intros m; [contradiction|].
  unfold discovered. cbn [fold_left]. fold (discovered dirs).
  destruct (String.eqb_spec d dir) as [->|Hne].
  - rewrite Hr. apply discovered_get_keep; [exact Hr|].
    rewrite map_get_set. now rewrite String.eqb_refl.
  - destruct Hin as [->|Hin]; [contradiction|]. now apply IH.
Qed.

Lemma albumRecord_none (dir : string) :
  albumRecord dir = None <-> loadContent ("content/albums/" +:+ dir +:+ "/info.md") = None.
Proof.
  unfold albumRecord. destruct (loadContent _); split; intros H; congruence.
Qed.

Lemma albumRecord_some (dir : string) (doc : ParsedDocument) :
  loadContent ("content/albums/" +:+ dir +:+ "/info.md") = Some doc ->
  exists data, albumRecord dir = Some data /\ content data = content doc.
Proof. intros H. unfold albumRecord. rewrite H. eauto. Qed.

(** ** ContentManager: the static documents *)

Lemma loadStaticContent_run (st : ContentManager) :
  let st' := snd (loadStaticContent st) in
  fst (loadStaticContent st) = Ok tt /\
  albums st' = albums st /\ page st' = page st /\
  bound_sections st' = bound_sections st /\
  (forall file doc,
      In file staticFiles ->
      loadContent ("content/" +:+ file +:+ ".md") = Some doc ->
      map_get file (contentCache st') = Some doc) /\
  (forall key, ~ In key staticFiles ->
               map_get key (contentCache st') = map_get key (contentCache st)).
Proof.
  unfold loadStaticContent, staticFiles. cbn [for_each].
  unfold bind, try_catch, contentCache_set, log, ret. cbn.
  repeat match goal with
         | |- context [match loadContent ?p with _ => _ end] =>
             destruct (loadContent p) eqn:?
         end;
    cbn; repeat split;
    try (intros file doc [<-|[<-|[<-|[]]]] Hdoc; cbn in Hdoc;
         rewrite ?map_get_set; cbn; congruence);
    try (intros key Hkey; rewrite ?map_get_set;
         repeat match goal with
                | |- context [String.eqb ?a key] =>
                    destruct (String.eqb_spec a key) as [<-|];
                    [exfalso; apply Hkey; cbn; tauto|]
                end; reflexivity).
Qed.

Lemma bind_links_run (links : list (option string)) (st : ContentManager) :
  Forall (fun href => href <> None) links ->
  let r := for_each links (fun href =>
                             match href with
                             | None => throw TypeError
                             | Some target => bind_section (substring1 target)
                             end) st in
  fst r = Ok tt /\ albums (snd r) = albums st /\
  contentCache (snd r) = contentCache st /\ page (snd r) = page st.
Proof.
  intros H. revert st. induction H as [|href links Hh Hl IH]; intros st.
  - cbn. tauto.
  - destruct href as [target|]; [|contradiction].
    cbn [for_each]. unfold bind at 1, bind_section at 1.
    specialize (IH (with_bound_sections (bound_sections st ++ [substring1 target]) st)).
    exact IH.
Qed.

Lemma initialize_rejected (st : ContentManager) :
  fetch "content/albums/index.json" = FetchRejected ->
  initialize st
  = (Throw NetworkError,
     with_console (console st ++ [(LError, "Album discovery failed");
                                  (LError, "Initialization failed")]) st).
Proof.
  intros H. unfold initialize, try_catch, bind.
  rewrite (discoverAlbums_rejected st H). cbn.
  unfold with_console. cbn. now rewrite <- app_assoc.
Qed.

Lemma initialize_unreadable (st : ContentManager) (status : Z) (text : string)
      (e : error) :
  fetch "content/albums/index.json" = FetchResponse status text ->
  albumDirectories_of text = Throw e ->
  fst (initialize st) = Throw e.
Proof.
  intros Hf Hd. unfold initialize, try_catch, bind.
  now rewrite (discoverAlbums_unreadable st status text e Hf Hd).
Qed.

Lemma initialize_listed (st : ContentManager) (status : Z) (text : string)
      (dirs : list string) :
  fetch "content/albums/index.json" = FetchResponse status text ->
  albumDirectories_of text = Ok dirs ->
  Forall (fun href => href <> None) (nav_links (page st)) ->
  exists st', initialize st = (Ok tt, st') /\
              albums st' = discovered dirs (albums st).
Proof.
  intros Hf Hd Hl. unfold initialize, try_catch.
  unfold bind at 1. rewrite (discoverAlbums_listed st status text dirs Hf Hd).
  set (st1 := with_console _ _).
  unfold bind at 1.
  destruct (loadStaticContent_run st1) as (Hok & Ha & Hp & _).
  destruct (loadStaticContent st1) as [r st2]. cbn in Hok, Ha, Hp. subst r.
  unfold setupNavigationHandlers, bind at 1, get_state.
  assert (Hl2 : Forall (fun href => href <> None) (nav_links (page st2))).
  { rewrite Hp. exact Hl. }
  destruct (bind_links_run _ st2 Hl2) as (Hok2 & Ha2 & _).
  destruct (for_each _ _ st2) as [r st3]. cbn in Hok2, Ha2. subst r.
  exists st3. split; [reflexivity|]. now rewrite Ha2, Ha.
Qed.

(** The part of C4 that holds.  When the fetch of the album index is
    rejected, [discoverAlbums] throws and [initialize] throws the same
    error to its caller, having done nothing but log; so it does when the
    index cannot be read.  When the index is read, under whatever status,
    [discoverAlbums] completes whatever happens to the single albums: an album whose info document does not load is left
    out of the mapping, and every listed album whose document loads is
    in the mapping, before or after a failing one; with a well-formed
    menu [initialize] completes too. *)
Theorem album_failure_is_not_fatal (st : ContentManager) :
  (fetch "content/albums/index.json" = FetchRejected ->
   fst (discoverAlbums st) = Throw NetworkError /\
   initialize st
   = (Throw NetworkError,
      with_console (console st ++ [(LError, "Album discovery failed");
                                   (LError, "Initialization failed")]) st)) /\
  (forall status text e,
      fetch "content/albums/index.json" = FetchResponse status text ->
      albumDirectories_of text = Throw e ->
      fst (initialize st) = Throw e) /\
  (forall status text dirs,
      fetch "content/albums/index.json" = FetchResponse status text ->
      albumDirectories_of text = Ok dirs ->
      let st' := snd (discoverAlbums st) in
      fst (discoverAlbums st) = Ok tt /\
      (forall dir,
          loadContent ("content/albums/" +:+ dir +:+ "/info.md") = None ->
          map_get dir (albums st') = map_get dir (albums st)) /\
      (forall dir doc,
          In dir dirs ->
          loadContent ("content/albums/" +:+ dir +:+ "/info.md") = Some doc ->
          exists data, map_get dir (albums st') = Some data /\
                       content data = content doc) /\
      (Forall (fun href => href <> None) (nav_links (page st)) ->
       fst (initialize st) = Ok tt)).
Proof.
  split; [|split].
  - intros H. split.
    + now rewrite (discoverAlbums_rejected st H).
    + now apply initialize_rejected.
  - apply initialize_unreadable.
  - intros status text dirs Hf Hd. cbn zeta.
    rewrite (discoverAlbums_listed st status text dirs Hf Hd). cbn [fst snd].
    split; [reflexivity|]. split; [|split].
    + intros dir Hn. cbn. apply discovered_get_skip. now apply albumRecord_none.
    + intros dir doc Hin Hdoc. cbn.
      destruct (albumRecord_some dir doc Hdoc) as (data & Hr & Hc).
      exists data. split; [|exact Hc]. now apply discovered_get_loaded.
    + intros Hl.
      destruct (initialize_listed st status text dirs Hf Hd Hl) as (st' & -> & _).
      reflexivity.
Qed.

(** ** ContentManager: rendering *)

Lemma with_page_twice (d d' : document) (st : ContentManager) :
  with_page d (with_page d' st) = with_page d st.
Proof. reflexivity. Qed.

Lemma append_album_set (id : string) (cards : list album_card) (card : album_card)
      (d : document) :
  append_album (ById id) card (set_albums_grid id cards d)
  = set_albums_grid id (cards ++ [card]) d.
Proof.
  unfold append_album, set_albums_grid. cbn. f_equal.
  rewrite alter_alter_eq. apply alter_ext. intros el _. reflexivity.
Qed.

Lemma createAlbumElement_throws (dir : string) (albumData : ParsedDocument) (e : error) :
  createAlbumElement dir albumData = Throw e -> e = TypeError.
Proof.
  unfold createAlbumElement. destruct (metadata albumData !! "tracks"); congruence.
Qed.

Lemma catalog_loop (id : string) (l : list (string * ParsedDocument))
      (cards : list album_card) (d : document) (st : ContentManager) :
  for_each l (fun entry =>
                albumElement <- lift (createAlbumElement (fst entry) (snd entry)) ;;
                update_page (append_album (ById id) albumElement))
           (with_page (set_albums_grid id cards d) st)
  = (if snd (catalog_cards l) then Ok tt else Throw TypeError,
     with_page (set_albums_grid id (cards ++ fst (catalog_cards l)) d) st).
Proof.
  revert cards. induction l as [|entry l IH]; intros cards.
  - cbn. now rewrite app_nil_r.
  - cbn [for_each catalog_cards]. unfold bind at 1. unfold bind at 1. unfold lift at 1.
    destruct (createAlbumElement (fst entry) (snd entry)) as [card|e] eqn:E.
    + unfold update_page at 1. cbn [page with_page].
      rewrite with_page_twice, append_album_set, IH.
      destruct (catalog_cards l) as [cs complete]. cbn [fst snd].
      now rewrite <- app_assoc.
    + apply createAlbumElement_throws in E. subst e. cbn. now rewrite app_nil_r.
Qed.

Lemma renderMusicCatalog_run (id : string) (st : ContentManager) :
  has_albums_grid (ById id) (page st) = true ->
  renderMusicCatalog (ById id) st
  = (if snd (catalog_cards (albums st)) then Ok tt else Throw TypeError,
     with_page (set_albums_grid id (fst (catalog_cards (albums st))) (page st)) st).
Proof.
  intros H. unfold renderMusicCatalog, bind at 1, get_state. rewrite H.
  unfold bind at 1, update_page at 1.
  change (clear_albums_grid (ById id) (page st)) with (set_albums_grid id [] (page st)).
  rewrite catalog_loop. reflexivity.
Qed.

(** One card for each album, in the order of the mapping, as long as
    every album has a [tracks] entry. *)
Lemma catalog_cards_complete (l : list (string * ParsedDocument)) :
  Forall (fun entry => is_Some (metadata (snd entry) !! "tracks")) l ->
  snd (catalog_cards l) = true /\
  map card_dir (fst (catalog_cards l)) = map fst l.
Proof.
  induction 1 as [|entry l [tracks Ht] Hl [IH1 IH2]]; [split; reflexivity|].
  cbn [catalog_cards]. unfold createAlbumElement. rewrite Ht.
  destruct (catalog_cards l) as [cs complete]. cbn in *. subst. split; congruence.
Qed.

(** The loop stops at the first album without a [tracks] entry. *)
Lemma catalog_cards_stops (before after : list (string * ParsedDocument))
      (entry : string * ParsedDocument) :
  Forall (fun e => is_Some (metadata (snd e) !! "tracks")) before ->
  metadata (snd entry) !! "tracks" = None ->
  snd (catalog_cards (before ++ entry :: after)) = false /\
  map card_dir (fst (catalog_cards (before ++ entry :: after))) = map fst before.
Proof.
  intros Hb He. induction Hb as [|e l [tracks Ht] Hl [IH1 IH2]].
  - cbn. unfold createAlbumElement. rewrite He. split; reflexivity.
  - cbn [app catalog_cards].
    assert (Hc : exists card, createAlbumElement (fst e) (snd e) = Ok card
                              /\ card_dir card = fst e).
    { unfold createAlbumElement. rewrite Ht. eauto. }
    destruct Hc as (card & -> & Hd).
    destruct (catalog_cards (l ++ entry :: after)) as [cs complete].
    cbn in *. subst. split; congruence.
Qed.

Lemma renderStaticContent_cached (type : string) (c : container_ref)
      (doc : ParsedDocument) (st : ContentManager) :
  map_get type (contentCache st) = Some doc ->
  has_markdown_content c (page st) = true ->
  renderStaticContent type c st
  = (Ok tt, with_page (set_markdown_content c (content doc) (page st)) st).
Proof.
  intros Hc Hm. unfold renderStaticContent, bind, get_state. now rewrite Hc, Hm.
Qed.

Lemma renderStaticContent_absent (type : string) (c : container_ref)
      (st : ContentManager) :
  map_get type (contentCache st) = None ->
  renderStaticContent type c st
  = (Ok tt,
     with_console (console st ++ [(LWarn, "No cached content found for: " +:+ type)]) st).
Proof. intros Hc. unfold renderStaticContent, bind, get_state. now rewrite Hc. Qed.

Lemma renderStaticContent_ok (type : string) (c : container_ref) (st : ContentManager) :
  fst (renderStaticContent type c st) = Ok tt.
Proof.
  unfold renderStaticContent, bind, get_state.
  destruct (map_get type (contentCache st)); [|reflexivity].
  destruct (has_markdown_content c (page st)); reflexivity.
Qed.

Lemma try_catch_ok {A} (c : M A) (handler : error -> M A) (st : ContentManager) (a : A) :
  fst (c st) = Ok a -> try_catch c handler st = c st.
Proof. unfold try_catch. destruct (c st) as [[r|e] st']; cbn; congruence. Qed.

Lemma locate_ident (d : document) (sectionId : string) :
  simple_ident sectionId = true ->
  locate d sectionId
  = Ok (match by_id d !! sectionId with
        | Some _ => Some (ById sectionId)
        | None => None
        end).
Proof.
  unfold locate. destruct sectionId as [|c s]; [discriminate|].
  intros H. rewrite H.
  assert (Hd : is_digit c = false).
  { cbn in H. apply andb_true_iff in H as [H _]. revert H.
    destruct c as [[] [] [] [] [] [] [] []]; vm_compute; congruence. }
  now rewrite Hd.
Qed.

(** The three static sections: the switch looks up a fixed cache key. *)
Lemma loadSection_static (section key : string) (st : ContentManager) (el : section_el) :
  In (section, key) [("about", "bio"); ("news", "news"); ("home", "home")] ->
  by_id (page st) !! section = Some el ->
  loadSection section st = renderStaticContent key (ById section) st.
Proof.
  intros Hin Hel.
  assert (Hloc : locate (page st) section = Ok (Some (ById section))).
  { destruct Hin as [H|[H|[H|[]]]]; injection H as <- <-;
      rewrite locate_ident by reflexivity; now rewrite Hel. }
  destruct Hin as [H|[H|[H|[]]]]; injection H as <- <-;
    unfold loadSection; cbn [String.eqb Ascii.eqb Bool.eqb];
    unfold bind at 1, get_state; unfold bind at 1, lift; rewrite Hloc;
    apply (try_catch_ok _ _ _ tt), renderStaticContent_ok.
Qed.

Lemma loadSection_music (st : ContentManager) (el : section_el) :
  by_id (page st) !! "music" = Some el ->
  is_Some (albums_grid el) ->
  loadSection "music" st
  = (Ok tt,
     let st' := with_page (set_albums_grid "music" (fst (catalog_cards (albums st)))
                                           (page st)) st in
     if snd (catalog_cards (albums st)) then st'
     else with_console (console st' ++ [(LError, "Error loading section music")]) st').
Proof.
  intros Hel Hg.
  assert (Hloc : locate (page st) "music" = Ok (Some (ById "music"))).
  { rewrite locate_ident by reflexivity. now rewrite Hel. }
  assert (Hgrid : has_albums_grid (ById "music") (page st) = true).
  { unfold has_albums_grid. rewrite Hel. now apply bool_decide_eq_true. }
  unfold loadSection. cbn [String.eqb Ascii.eqb Bool.eqb].
  unfold bind at 1, get_state. unfold bind at 1, lift. rewrite Hloc.
  unfold try_catch. rewrite (renderMusicCatalog_run "music" st Hgrid).
  destruct (snd (catalog_cards (albums st))); reflexivity.
Qed.


Lemma loadSection_unknown (sectionId : string) (st : ContentManager)
      (c : option container_ref) :
  sectionId <> EmptyString ->
  ~ In sectionId ["music"; "about"; "news"; "home"] ->
  locate (page st) sectionId = Ok c ->
  loadSection sectionId st
  = (Ok tt,
     with_console
       (console st ++
          [match c with
           | Some _ => (LWarn, "Unknown section: " +:+ sectionId)
           | None => (LError, "Section container not found: " +:+ sectionId)
           end]) st).
Proof.
  intros Hne Hun Hloc. unfold loadSection.
  destruct (String.eqb_spec sectionId EmptyString) as [|_]; [contradiction|].
  unfold bind at 1, get_state. unfold bind at 1, lift. rewrite Hloc.
  destruct c as [container|]; [|reflexivity].
  destruct (String.eqb_spec sectionId "music") as [->|_]; [exfalso; apply Hun; cbn; tauto|].
  destruct (String.eqb_spec sectionId "about") as [->|_]; [exfalso; apply Hun; cbn; tauto|].
  destruct (String.eqb_spec sectionId "news") as [->|_]; [exfalso; apply Hun; cbn; tauto|].
  destruct (String.eqb_spec sectionId "home") as [->|_]; [exfalso; apply Hun; cbn; tauto|].
  reflexivity.
Qed.

(** The selector is built and run before the [try] block: when the
    engine rejects it, the exception leaves [loadSection]. *)
Lemma loadSection_bad_selector (sectionId : string) (st : ContentManager) (e : error) :
  sectionId <> EmptyString ->
  locate (page st) sectionId = Throw e ->
  loadSection sectionId st = (Throw e, st).
Proof.
  intros Hne Hloc. unfold loadSection.
  destruct (String.eqb_spec sectionId EmptyString) as [|_]; [contradiction|].
  unfold bind at 1, get_state. unfold bind at 1, lift. now rewrite Hloc.
Qed.


(** C6 (amended).  The cache of static documents is keyed by the name
    of the file, one of bio, news and home: a document that loads
    during [loadStaticContent] is held under the name of its file.
    Rendering the section home reads the key home, news reads news,
    and about reads bio: the cached markup goes into the content slot
    of the section, and without a cached document the page is left as
    it is and a warning is logged. *)
Theorem static_cache_is_keyed_by_file (st : ContentManager) :
  (forall file doc,
      In file ["bio"; "news"; "home"] ->
      loadContent ("content/" +:+ file +:+ ".md") = Some doc ->
      map_get file (contentCache (snd (loadStaticContent st))) = Some doc) /\
  (forall section key el,
      In (section, key) [("home", "home"); ("about", "bio"); ("news", "news")] ->
      by_id (page st) !! section = Some el ->
      loadSection section st = renderStaticContent key (ById section) st /\
      (forall doc,
          map_get key (contentCache st) = Some doc ->
          is_Some (markdown_content el) ->
          loadSection section st
          = (Ok tt,
             with_page (set_markdown_content (ById section) (content doc) (page st)) st)) /\
      (map_get key (contentCache st) = None ->
       loadSection section st
       = (Ok tt,
          with_console
            (console st ++ [(LWarn, "No cached content found for: " +:+ key)]) st))).
Proof.
  split.
  - intros file doc Hin Hdoc.
    destruct (loadStaticContent_run st) as (_ & _ & _ & _ & H & _).
    now apply H.
  - intros section key el Hin Hel.
    assert (Hin' : In (section, key) [("about", "bio"); ("news", "news"); ("home", "home")]).
    { destruct Hin as [H|[H|[H|[]]]]; rewrite <- H; cbn; auto. }
    pose proof (loadSection_static section key st el Hin' Hel) as Hs.
    split; [exact Hs|]. rewrite Hs. split.
    + intros doc Hc Hm. apply renderStaticContent_cached; [exact Hc|].
      unfold has_markdown_content. rewrite Hel. now apply bool_decide_eq_true.
    + apply renderStaticContent_absent.
Qed.

(** ** ContentManager: the order of the albums *)

Lemma map_keys_set_in {V : Type} (k : string) (v : V) (m : list (string * V)) :
  In k (map_keys m) -> map_keys (map_set k v m) = map_keys m.
Proof.
  induction m as [|[k0 v0] m IH]; cbn; [contradiction|].
  intros [->|Hin].
  - now rewrite String.eqb_refl.
  - destruct (String.eqb_spec k0 k) as [->|]; [reflexivity|].
    cbn. f_equal. now apply IH.
Qed.

Lemma map_keys_set_new {V : Type} (k : string) (v : V) (m : list (string * V)) :
  ~ In k (map_keys m) -> map_keys (map_set k v m) = map_keys m ++ [k].
Proof.
  induction m as [|[k0 v0] m IH]; cbn; [reflexivity|].
  intros Hn. destruct (String.eqb_spec k0 k) as [->|]; [exfalso; apply Hn; now left|].
  cbn. f_equal. apply IH. intros Hin. apply Hn. now right.
Qed.

(** The keys of the albums mapping, in insertion order, are the
    identifiers of the index whose document loaded, in index order. *)
Lemma discovered_keys (dirs : list string) (m : list (string * ParsedDocument)) :
  List.NoDup dirs ->
  (forall dir, In dir dirs -> ~ In dir (map_keys m)) ->
  map_keys (discovered dirs m)
  = map_keys m ++
    List.filter (fun dir => match albumRecord dir with Some _ => true | None => false end)
                dirs.
Proof.
  intros Hnd. revert m. induction Hnd as [|dir dirs Hnotin Hnd IH]; intros m Hm.
  - cbn. now rewrite app_nil_r.
  - unfold discovered. cbn [fold_left List.filter]. fold (discovered dirs).
    destruct (albumRecord dir) as [data|].
    + rewrite IH.
      * rewrite map_keys_set_new by (apply Hm; now left).
        now rewrite <- app_assoc.
      * intros d Hd. rewrite map_keys_set_new by (apply Hm; now left).
        intros Hin. apply in_app_or in Hin as [Hin|[<-|[]]].
        -- apply (Hm d); [now right | exact Hin].
        -- contradiction.
    + apply IH. intros d Hd. apply Hm. now right.
Qed.

(** ** ContentManager: lyrics *)

Lemma loadLyrics_absent (lyricsFile : string) (st : ContentManager) :
  loadContent lyricsFile = None ->
  loadLyrics lyricsFile st
  = (Ok "Lyrics not available",
     with_console (console st ++ [(LError, "Error loading lyrics")]) st).
Proof. intros H. unfold loadLyrics, try_catch. now rewrite H. Qed.

(** C10.  When the lyrics document does not load ([loadContent] returns
    null), [loadLyrics] returns the string 'Lyrics not available' and
    throws nothing, and the click handler of the lyrics button still
    appends a lyrics overlay to the page, with that text in it. *)
Theorem lyrics_fallback (lyricsFile : string) (st : ContentManager) :
  loadContent lyricsFile = None ->
  fst (loadLyrics lyricsFile st) = Ok "Lyrics not available" /\
  fst (lyricsClick lyricsFile st) = Ok tt /\
  overlays (page (snd (lyricsClick lyricsFile st)))
  = overlays (page st) ++ [mkModal "modal lyrics-modal" "Lyrics not available"] /\
  by_id (page (snd (lyricsClick lyricsFile st))) = by_id (page st).
Proof.
  intros H. unfold lyricsClick, bind. rewrite (loadLyrics_absent _ _ H).
  cbn. repeat split.
Qed.

(** ** AudioPlayer *)

(** C9.  Whatever the widget has been through (any sequence of clicks
    and media events from any state, playing or errored included),
    [loadTrack] sets the source to the given url, the width of the
    progress bar to 0% and the button to its paused appearance (no
    'playing' class, label Play); and the [ended] event makes the same
    visual reset and leaves the source as it was. *)
Theorem loadTrack_resets (w : AudioPlayer) (events : list player_event)
        (trackUrl : string) :
  let prior := fold_left dispatch events w in
  let loaded := loadTrack trackUrl prior in
  let ended := dispatch prior Ended in
  (audio_src loaded = trackUrl /\
   progress_width loaded = "0%" /\
   playButton_playing loaded = false /\
   playButton_label loaded = "Play") /\
  (progress_width ended = "0%" /\
   playButton_playing ended = false /\
   playButton_label ended = "Play" /\
   audio_src ended = audio_src prior).
Proof. cbn. repeat split. Qed.

(** ** formatTime *)

(** *** The rounding of the division *)

Local Open Scope Q_scope.


Lemma pow2_pos (e : Z) : 0 < 2 ^ e.
Proof. apply Qpower_0_lt. reflexivity. Qed.

Lemma pow2_inject (e : Z) : (0 <= e)%Z -> 2 ^ e == inject_Z (2 ^ e).
Proof. intros H. rewrite Zpower_Qpower by exact H. reflexivity. Qed.

Lemma pow2_add (a b : Z) : 2 ^ (a + b) == 2 ^ a * 2 ^ b.
Proof. apply Qpower_plus. discriminate. Qed.

Lemma pow2_le (a b : Z) : (a <= b)%Z -> 2 ^ a <= 2 ^ b.
Proof. intros H. apply Qpower_le_compat_l; [exact H | discriminate]. Qed.

Lemma pow2_lt_inv (a b : Z) : 2 ^ a < 2 ^ b -> (a < b)%Z.
Proof. intros H. apply (Qpower_lt_compat_l_inv 2); [exact H | reflexivity]. Qed.

Lemma binade_spec (q : Q) : 0 < q -> 2 ^ binade q <= q /\ q < 2 ^ (binade q + 1).
Proof.
  intros Hq. destruct q as [n d]. unfold binade. cbn [Qnum Qden].
  assert (Hn : (0 < n)%Z).
  { unfold Qlt in Hq. cbn in Hq. lia. }
  destruct (Z.log2_spec n Hn) as [Ha1 Ha2].
  destruct (Z.log2_spec (Z.pos d) (Pos2Z.is_pos d)) as [Hb1 Hb2].
  set (a := Z.log2 n) in *. set (b := Z.log2 (Z.pos d)) in *.
  assert (Ha0 : (0 <= a)%Z) by apply Z.log2_nonneg.
  assert (Hb0 : (0 <= b)%Z) by apply Z.log2_nonneg.
  assert (Hup : n # d < 2 ^ (a - b + 1)).
  { replace (a - b + 1)%Z with ((a + 1) + - b)%Z by ring.
    rewrite pow2_add, Qpower_opp, (pow2_inject (a + 1)), (pow2_inject b) by lia.
    apply Qlt_shift_div_l.
    - replace 0 with (inject_Z 0) by reflexivity. rewrite <- Zlt_Qlt. lia.
    - unfold Qlt, Qmult, inject_Z. cbn [Qnum Qden]. rewrite Z.mul_1_r, Pos.mul_1_r.
      replace (Z.succ a) with (a + 1)%Z in Ha2 by lia.
      apply Z.lt_le_trans with (2 ^ (a + 1) * 2 ^ b)%Z.
      + apply Z.mul_lt_mono_pos_r; lia.
      + apply Z.mul_le_mono_nonneg_l; lia. }
  assert (Hlow : 2 ^ (a - b - 1) <= n # d).
  { replace (a - b - 1)%Z with (a + - (b + 1))%Z by ring.
    rewrite pow2_add, Qpower_opp, (pow2_inject a), (pow2_inject (b + 1)) by lia.
    apply Qle_shift_div_r.
    - replace 0 with (inject_Z 0) by reflexivity. rewrite <- Zlt_Qlt. lia.
    - unfold Qle, Qmult, inject_Z. cbn [Qnum Qden]. rewrite Z.mul_1_r, Pos.mul_1_r.
      replace (Z.succ b) with (b + 1)%Z in Hb2 by lia.
      apply Z.le_trans with (n * Z.pos d)%Z.
      + apply Z.mul_le_mono_nonneg_r; lia.
      + apply Z.mul_le_mono_nonneg_l; lia. }
  destruct (Qle_bool (2 ^ (a - b)) (n # d)) eqn:E.
  - apply Qle_bool_iff in E. split; assumption.
  - split.
    + exact Hlow.
    + replace (a - b - 1 + 1)%Z with (a - b)%Z by ring.
      apply Qnot_le_lt. intros H. apply Qle_bool_iff in H. congruence.
Qed.

Lemma round_half_even_lower (t : Q) (N : Z) :
  inject_Z N <= t -> (N <= round_half_even t)%Z.
Proof.
  intros H. unfold round_half_even.
  assert (Hf : (N <= Qfloor t)%Z).
  { rewrite <- (Qfloor_Z N). now apply Qfloor_resp_le. }
  destruct (_ ?= _); [destruct (Z.even _)|..]; lia.
Qed.

Lemma round_half_even_upper (t : Q) (N : Z) :
  t + (1 # 2) < inject_Z N -> (round_half_even t < N)%Z.
Proof.
  intros H. unfold round_half_even.
  pose proof (Qfloor_le t) as Hf.
  assert (H1 : (Qfloor t < N)%Z).
  { rewrite Zlt_Qlt. lra. }
  destruct (_ ?= _) eqn:E.
  - apply Qeq_alt in E.
    assert (H2 : inject_Z (Qfloor t + 1) < inject_Z N).
    { rewrite inject_Z_plus. change (inject_Z 1) with 1. lra. }
    rewrite <- Zlt_Qlt in H2. destruct (Z.even _); lia.
  - exact H1.
  - apply Qgt_alt in E.
    assert (H2 : inject_Z (Qfloor t + 1) < inject_Z N).
    { rewrite inject_Z_plus. change (inject_Z 1) with 1. lra. }
    now rewrite <- Zlt_Qlt in H2.
Qed.

Lemma Qfloor_unique (x : Q) (k : Z) :
  inject_Z k <= x -> x < inject_Z (k + 1) -> Qfloor x = k.
Proof.
  intros H1 H2.
  assert (Ha : (k <= Qfloor x)%Z).
  { rewrite <- (Qfloor_Z k). now apply Qfloor_resp_le. }
  assert (Hb : (Qfloor x < k + 1)%Z).
  { rewrite Zlt_Qlt. pose proof (Qfloor_le x). lra. }
  lia.
Qed.

Lemma Qabs_pos_eq (y : Q) : 0 < y -> Qabs y = y.
Proof.
  destruct y as [n d]. unfold Qlt, Qabs. cbn. intros H. f_equal. lia.
Qed.

Lemma is_double_grid (q : Q) :
  is_double q = true -> ~ q == 0 ->
  exists M : Z, q == inject_Z M * 2 ^ ulp_exponent q.
Proof.
  unfold is_double, to_double. intros H Hq.
  destruct (Qeq_bool q 0) eqn:E.
  - apply Qeq_bool_iff in E. contradiction.
  - apply Qeq_bool_iff in H. eexists. symmetry. exact H.
Qed.

Lemma to_double_0 (y : Q) : y == 0 -> to_double y = 0.
Proof.
  intros H. unfold to_double. apply Qeq_bool_iff in H. now rewrite H.
Qed.

Lemma to_double_nonzero (y : Q) :
  0 < y ->
  to_double y
  = inject_Z (round_half_even (y / 2 ^ (Z.max (binade y) (-1022) - 52)))
    * 2 ^ (Z.max (binade y) (-1022) - 52).
Proof.
  intros H. unfold to_double, ulp_exponent. rewrite (Qabs_pos_eq y H).
  destruct (Qeq_bool y 0) eqn:E; [|reflexivity].
  apply Qeq_bool_iff in E. lra.
Qed.

Lemma inject_Z_pos_ge_1 (D : Z) : 0 < inject_Z D -> 1 <= inject_Z D.
Proof.
  intros H. change 0 with (inject_Z 0) in H. rewrite <- Zlt_Qlt in H.
  change 1 with (inject_Z 1). rewrite <- Zle_Qle. lia.
Qed.

(** The quotient of a double below 2^55 by 60, rounded to a double, has
    the integer part of the exact quotient. *)
Lemma floor_of_rounded_quotient (q : Q) :
  is_double q = true -> 0 <= q -> q < 2 ^ 55 ->
  Qfloor (to_double (q / 60)) = Qfloor (q / 60).
Proof.
  intros Hd H0 Hbound.
  destruct (Qeq_dec q 0) as [Hz|Hnz].
  { assert (Hy : q / 60 == 0) by (rewrite Hz; reflexivity).
    rewrite (to_double_0 _ Hy). now rewrite Hy. }
  assert (Hq : 0 < q) by lra.
  set (y := q / 60).
  assert (Hyq : y * 60 == q) by (unfold y; field).
  assert (Hy : 0 < y) by lra.
  rewrite (to_double_nonzero y Hy).
  destruct (binade_spec y Hy) as [Hby1 Hby2].
  destruct (binade_spec q Hq) as [Hbq1 Hbq2].
  set (by_ := binade y) in *. set (bq := binade q) in *.
  destruct (is_double_grid q Hd Hnz) as [M HM].
  unfold ulp_exponent in HM. rewrite (Qabs_pos_eq q Hq) in HM. fold bq in HM.
  set (e := (Z.max bq (-1022) - 52)%Z) in *.
  set (f := (Z.max by_ (-1022) - 52)%Z).
  assert (Hbq : (bq < 55)%Z).
  { apply pow2_lt_inv. lra. }
  assert (Hby : (by_ < 50)%Z).
  { apply pow2_lt_inv.
    assert (H55 : 2 ^ 55 == 32 * 2 ^ 50).
    { rewrite (pow2_add 5 50). reflexivity. }
    pose proof (pow2_pos 50). lra. }
  assert (He : (e <= 2)%Z) by lia.
  assert (Hf : (f <= 0)%Z) by lia.
  set (k := Qfloor y).
  pose proof (Qfloor_le y) as Hk1. pose proof (Qlt_floor y) as Hk2. fold k in Hk1, Hk2.
  rewrite inject_Z_plus in Hk2. change (inject_Z 1) with 1 in Hk2.
  assert (Hk0 : 0 <= inject_Z k).
  { change 0 with (inject_Z 0). rewrite <- Zle_Qle.
    change 0%Z with (Qfloor 0). apply Qfloor_resp_le. lra. }
  set (E := 2 ^ e) in *. set (F := 2 ^ f).
  assert (HE : 0 < E) by apply pow2_pos.
  assert (HF : 0 < F) by apply pow2_pos.
  (* the distance to the next multiple of 60 is at least one unit of q *)
  assert (Hdelta : E <= 60 * (inject_Z k + 1) - q).
  { assert (H4 : inject_Z (2 ^ (2 - e)) * E == 4).
    { unfold E. rewrite <- pow2_inject by lia. rewrite <- pow2_add.
      replace (2 - e + e)%Z with 2%Z by ring. reflexivity. }
    assert (HD : 60 * (inject_Z k + 1) - q
                 == inject_Z (15 * (k + 1) * 2 ^ (2 - e) - M) * E).
    { set (T := (2 ^ (2 - e))%Z) in *.
      unfold Zminus. rewrite inject_Z_plus, inject_Z_opp, !inject_Z_mult, inject_Z_plus.
      change (inject_Z 15) with 15. change (inject_Z 1) with 1.
      rewrite HM.
      transitivity (15 * (inject_Z k + 1) * (inject_Z T * E) - inject_Z M * E);
        [rewrite H4|]; ring. }
    set (D := (15 * (k + 1) * 2 ^ (2 - e) - M)%Z) in *.
    assert (HDpos : 0 < inject_Z D).
    { apply (Qmult_lt_r _ _ E HE). rewrite <- HD. lra. }
    apply inject_Z_pos_ge_1 in HDpos. rewrite HD. nra. }
  (* so the quotient is more than half a unit below the next integer *)
  assert (Hgap : F < 2 * (inject_Z k + 1 - y)).
  { destruct (Z_lt_le_dec by_ (-1022)) as [Hsub|Hnorm].
    - assert (Hy2 : y < 1 # 2).
      { apply Qlt_le_trans with (2 ^ (by_ + 1)); [exact Hby2|].
        change (1 # 2) with (2 ^ (-1)). apply pow2_le. lia. }
      assert (HF1 : F <= 1).
      { change 1 with (2 ^ 0). apply pow2_le. lia. }
      lra.
    - assert (Hfe : f = (by_ + -52)%Z) by lia.
      assert (HFA : F == 2 ^ by_ * 2 ^ (-52)).
      { unfold F. rewrite Hfe. apply pow2_add. }
      assert (Hq53 : q < E * 2 ^ 53).
      { apply Qlt_le_trans with (2 ^ (bq + 1)); [exact Hbq2|].
        unfold E. rewrite <- pow2_add. apply pow2_le. lia. }
      assert (Hu : 2 ^ (-52) * 2 ^ 53 == 2).
      { rewrite <- pow2_add. reflexivity. }
      pose proof (pow2_pos (-52)) as Hu0. pose proof (pow2_pos 53) as Hc0.
      set (u := 2 ^ (-52)) in *. set (c := 2 ^ 53) in *. set (A := 2 ^ by_) in *.
      set (delta := 60 * (inject_Z k + 1) - q) in *.
      assert (H1 : 60 * A < delta * c) by nra.
      assert (H2 : 60 * A * u < delta * c * u).
      { apply Qmult_lt_compat_r; assumption. }
      assert (H3 : delta * c * u == 2 * delta).
      { transitivity (delta * (u * c)); [ring|]. rewrite Hu. ring. }
      rewrite H3 in H2. unfold delta in H2. rewrite HFA. lra. }
  (* the rounding, on the grid of the quotient *)
  assert (HP : F * inject_Z (2 ^ (- f)) == 1).
  { unfold F. rewrite <- pow2_inject by lia. rewrite <- pow2_add.
    replace (f + - f)%Z with 0%Z by ring. reflexivity. }
  set (P := inject_Z (2 ^ (- f))) in *.
  assert (HPpos : 0 < P).
  { apply (Qmult_lt_l _ _ F HF). rewrite HP. lra. }
  assert (Ht : y / F == y * P).
  { transitivity (y * (F * P) / F); [rewrite HP; field; lra | field; lra]. }
  set (R := round_half_even (y / 2 ^ f)).
  assert (HR1 : (k * 2 ^ (- f) <= R)%Z).
  { apply round_half_even_lower. fold F. rewrite Ht, inject_Z_mult. fold P. nra. }
  assert (HR2 : (R < (k + 1) * 2 ^ (- f))%Z).
  { apply round_half_even_upper. fold F. rewrite Ht, inject_Z_mult, inject_Z_plus.
    fold P. change (inject_Z 1) with 1.
    assert (H1 : F * P < 2 * (inject_Z k + 1 - y) * P).
    { apply Qmult_lt_compat_r; assumption. }
    rewrite HP in H1. lra. }
  apply Qfloor_unique; fold F.
  - rewrite Zle_Qle, inject_Z_mult in HR1. fold P in HR1.
    assert (H1 : inject_Z k * P * F <= inject_Z R * F).
    { apply Qmult_le_compat_r; [exact HR1 | lra]. }
    assert (H2 : inject_Z k * P * F == inject_Z k).
    { transitivity (inject_Z k * (F * P)); [ring | rewrite HP; ring]. }
    rewrite H2 in H1. exact H1.
  - assert (HR3 : (R + 1 <= (k + 1) * 2 ^ (- f))%Z) by lia.
    rewrite Zle_Qle, inject_Z_mult, !inject_Z_plus in HR3. fold P in HR3.
    change (inject_Z 1) with 1 in HR3.
    rewrite inject_Z_plus. change (inject_Z 1) with 1.
    assert (H1 : (inject_Z R + 1) * F <= (inject_Z k + 1) * P * F).
    { apply Qmult_le_compat_r; [exact HR3 | lra]. }
    assert (H2 : (inject_Z k + 1) * P * F == inject_Z k + 1).
    { transitivity ((inject_Z k + 1) * (F * P)); [ring | rewrite HP; ring]. }
    assert (H3 : (inject_Z R + 1) * F == inject_Z R * F + F) by ring.
    rewrite H2, H3 in H1. change (inject_Z R * F < inject_Z k + 1). lra.
Qed.

Local Close Scope Q_scope.

(** *** The two components *)

Lemma Qfloor_div60 (q : Q) : Qfloor (q / 60) = (Qfloor q / 60)%Z.
Proof.
  destruct q as [a b]. unfold Qdiv, Qmult, Qinv, Qfloor. cbn.
  rewrite Z.mul_1_r, Pos2Z.inj_mul. symmetry. apply Z.div_div; lia.
Qed.

Lemma Qfloor_sub60 (q : Q) (k : Z) :
  Qfloor (q - 60 * inject_Z k) = (Qfloor q - 60 * k)%Z.
Proof.
  destruct q as [a b]. unfold Qminus, Qplus, Qopp, Qmult, inject_Z, Qfloor. cbn.
  rewrite Z.mul_1_r, Pos.mul_1_r.
  replace (a + - (60 * k) * Z.pos b)%Z with (a + (- (60 * k)) * Z.pos b)%Z by ring.
  rewrite Z.div_add by lia. ring.
Qed.

Lemma Qtruncate_nonneg (q : Q) : (0 <= q)%Q -> Qtruncate q = Qfloor q.
Proof.
  intros H. unfold Qtruncate. destruct (Qlt_le_dec q 0) as [Hlt|_]; [|reflexivity].
  exfalso. apply (Qlt_not_le _ _ Hlt H).
Qed.

Lemma int_to_string_small (z : Z) :
  (0 <= z < 2 ^ 53)%Z -> int_to_string (IInt z) = decimal z.
Proof.
  intros [H0 H1]. unfold int_to_string, magnitude_to_string, shortest_decimal.
  destruct (Z.ltb_spec z 0) as [Hn|_]; [lia|].
  destruct (Z.ltb_spec z (2 ^ 53)) as [_|Hn]; [|lia].
  destruct (Z.ltb_spec z (10 ^ 21)) as [_|Hn]; [reflexivity|].
  assert (2 ^ 53 < 10 ^ 21)%Z by reflexivity. lia.
Qed.

Lemma Qfloor_below (q : Q) (n : Z) : (q < inject_Z n)%Q -> (Qfloor q < n)%Z.
Proof.
  intros H. rewrite Zlt_Qlt. apply Qle_lt_trans with q; [apply Qfloor_le | exact H].
Qed.

(** The seconds of a finite duration that is not negative: the whole
    seconds modulo 60, exactly. *)
Lemma formatTime_seconds (q : Q) :
  (0 <= q)%Q ->
  math_floor (rem60 (Finite q)) = IInt (Qfloor q mod 60).
Proof.
  intros H. unfold math_floor, rem60.
  assert (H60 : (0 <= q / 60)%Q).
  { unfold Qdiv. apply Qmult_le_0_compat; [exact H|]. discriminate. }
  rewrite (Qtruncate_nonneg _ H60), Qfloor_sub60, Qfloor_div60.
  f_equal. rewrite Z.mod_eq by lia. ring.
Qed.

(** For a binary64 duration that is not negative and is below 2^55, the
    minutes are the whole seconds divided by 60 and the seconds are the
    remainder, both integers obtained by truncation and printed in
    decimal; the seconds have two digits. *)
Lemma formatTime_finite (q : Q) :
  is_double q = true -> (0 <= q)%Q -> (q < 2 ^ 55)%Q ->
  formatTime (Finite q)
  = decimal (Qfloor q / 60) +:+ ":" +:+ padStart2 (decimal (Qfloor q mod 60)).
Proof.
  intros Hd H Hb. unfold formatTime.
  rewrite (formatTime_seconds q H).
  unfold math_floor at 1, div60.
  rewrite (floor_of_rounded_quotient q Hd H Hb), Qfloor_div60.
  assert (Hf0 : (0 <= Qfloor q)%Z).
  { change 0%Z with (Qfloor 0). now apply Qfloor_resp_le. }
  assert (Hf1 : (Qfloor q < 2 ^ 55)%Z).
  { apply Qfloor_below. now rewrite <- pow2_inject by lia. }
  assert (Hm : (0 <= Qfloor q mod 60 < 60)%Z) by (apply Z.mod_pos_bound; lia).
  assert (Hd60 : (0 <= Qfloor q / 60 < 2 ^ 53)%Z).
  { split; [apply Z.div_pos; lia|].
    apply Z.div_lt_upper_bound; [lia|].
    assert (2 ^ 55 < 60 * 2 ^ 53)%Z by reflexivity. lia. }
  rewrite !int_to_string_small; [reflexivity| |exact Hd60].
  assert (60 < 2 ^ 53)%Z by reflexivity. lia.
Qed.

(** * Further properties of the sources *)

(** ** MarkdownParser *)

(** X1.  [splitFrontMatter] loses nothing: either it returns the empty
    block and the whole input as the body, or the input is the opening
    fence, the block, the closing fence and the body, in this order. *)
Theorem splitFrontMatter_loses_nothing (text frontMatter body : string) :
  splitFrontMatter (JStr text) = (frontMatter, JStr body) ->
  (frontMatter = EmptyString /\ body = text) \/
  text = opening +:+ frontMatter +:+ closing +:+ body.
Proof.
  rewrite splitFrontMatter_scan.
  destruct (strip_prefix opening text) as [rest|] eqn:E.
  - destruct (find_close rest) as [[block body']|] eqn:F; intros H; injection H as <- <-.
    + right. apply strip_prefix_sound in E. apply find_close_sound in F.
      now rewrite E, F.
    + now left.
  - intros H. injection H as <- <-. now left.
Qed.


(** X3.  A document made of a fence line, one or more lines none of which
    is a fence, a fence line, and at least one more line, parses to the
    metadata of the lines between the fences and the converted text of
    the lines after them (the text itself when the converter throws). *)
Theorem parseContent_of_fenced_document (block_lines body_lines : list string) :
  block_lines <> [] -> body_lines <> [] ->
  Forall (fun l => free_of newline l = true /\ l <> "---") block_lines ->
  Forall (fun l => free_of newline l = true) body_lines ->
  parseContent (JStr (text_of ("---" :: block_lines ++ "---" :: body_lines)))
  = mkDoc (parseFrontMatter (text_of block_lines))
          (parseMarkdown (text_of body_lines)).
Proof.
  intros Hb Hbody Hblock Hfree.
  destruct (splitFrontMatter_agrees_with_spec block_lines body_lines Hb Hbody Hblock Hfree)
    as [Hs _].
  unfold parseContent, parseContent_try. rewrite Hs. reflexivity.
Qed.

(** X4.  [loadContent] returns null exactly when the fetch is rejected,
    or the status of the response is outside 200..299, or the body of
    the response cannot be read; on a response with such a status and a
    readable body it returns the parsed text, whatever the text is. *)
Theorem loadContent_null_iff (filepath : string) :
  (loadContent filepath = None <->
   fetch filepath = FetchRejected \/
   (exists status text,
       fetch filepath = FetchResponse status text /\ ~ (200 <= status <= 299)%Z) \/
   (exists status, fetch filepath = FetchUnreadable status)) /\
  (forall status text,
      fetch filepath = FetchResponse status text ->
      (200 <= status <= 299)%Z ->
      loadContent filepath = Some (parseContent (JStr text))).
Proof.
  unfold loadContent, loadContent_try, response_ok.
  destruct (fetch filepath) as [|status text|status].
  - split.
    + split; [now left | reflexivity].
    + discriminate.
  - destruct ((200 <=? status)%Z && (status <=? 299)%Z) eqn:E.
    + apply andb_true_iff in E as [E1 E2].
      apply Z.leb_le in E1. apply Z.leb_le in E2. split.
      * split; [discriminate|].
        intros [H|[(status' & text' & H & Hn)|(status' & H)]]; try discriminate.
        injection H as <- <-. exfalso. apply Hn. lia.
      * intros status' text' H _. now injection H as <- <-.
    + split.
      * split; [|reflexivity]. intros _. right. left. exists status, text.
        split; [reflexivity|]. intros [H1 H2].
        apply Z.leb_le in H1. apply Z.leb_le in H2. rewrite H1, H2 in E. discriminate.
      * intros status' text' H [H1 H2]. injection H as <- <-.
        apply Z.leb_le in H1. apply Z.leb_le in H2. rewrite H1, H2 in E. discriminate.
  - split.
    + split.
      * intros _. right. right. now exists status.
      * intros _. now destruct ((200 <=? status)%Z && (status <=? 299)%Z).
    + discriminate.
Qed.

(** *** What the recorded keys and values look like *)

Lemma trimStart_fixed (s : string) :
  match s with
  | String c _ => is_white_space c = false
  | EmptyString => True
  end ->
  trimStart s = s.
Proof. destruct s as [|c s]; [reflexivity|]. cbn. now intros ->. Qed.

Lemma trimStart_head (s : string) :
  match trimStart s with
  | String c _ => is_white_space c = false
  | EmptyString => True
  end.
Proof.
  induction s as [|c s IH]; [exact I|].
  cbn. destruct (is_white_space c) eqn:E; [exact IH | exact E].
Qed.

Lemma trimEnd_head (s : string) :
  match s with
  | String c _ => is_white_space c = false
  | EmptyString => True
  end ->
  match trimEnd s with
  | String c _ => is_white_space c = false
  | EmptyString => True
  end.
Proof.
  destruct s as [|c s]; [exact id|]. intros H. cbn.
  destruct (trimEnd s); [now rewrite H | exact H].
Qed.

Lemma trimEnd_idempotent (s : string) : trimEnd (trimEnd s) = trimEnd s.
Proof.
  induction s as [|c s IH]; [reflexivity|].
  cbn [trimEnd]. destruct (trimEnd s) as [|d r] eqn:E.
  - destruct (is_white_space c) eqn:W; [reflexivity|]. cbn. now rewrite W.
  - cbn [trimEnd]. cbn [trimEnd] in IH. now rewrite IH.
Qed.

Lemma trim_idempotent (s : string) : trim (trim s) = trim s.
Proof.
  unfold trim.
  rewrite (trimStart_fixed (trimEnd (trimStart s))).
  - apply trimEnd_idempotent.
  - apply trimEnd_head, trimStart_head.
Qed.

Lemma free_of_trimStart (c : ascii) (s : string) :
  free_of c s = true -> free_of c (trimStart s) = true.
Proof.
  induction s as [|a s IH]; [exact id|]. intros H. cbn.
  destruct (is_white_space a); [|exact H].
  apply IH. now apply free_of_cons in H.
Qed.

Lemma free_of_trimEnd (c : ascii) (s : string) :
  free_of c s = true -> free_of c (trimEnd s) = true.
Proof.
  induction s as [|a s IH]; [exact id|]. intros H.
  pose proof H as H'. apply free_of_cons in H' as [Ha Hs]. specialize (IH Hs).
  cbn [trimEnd]. destruct (trimEnd s) as [|d r].
  - destruct (is_white_space a); [reflexivity|].
    unfold free_of in *. cbn in *. apply andb_true_iff in H as [H _]. now rewrite H.
  - unfold free_of in *. cbn [all_chars] in *.
    apply andb_true_iff in H as [H _]. now rewrite H, IH.
Qed.

Lemma free_of_trim (c : ascii) (s : string) :
  free_of c s = true -> free_of c (trim s) = true.
Proof. intros H. now apply free_of_trimEnd, free_of_trimStart. Qed.

Lemma split_free (sep : ascii) (s : string) :
  Forall (fun l => free_of sep l = true) (split sep s).
Proof.
  induction s as [|c s IH]; [repeat constructor|].
  cbn [split]. destruct (Ascii.eqb c sep) eqn:E.
  - constructor; [reflexivity | exact IH].
  - pose proof (split_nonempty sep s) as Hne.
    destruct (split sep s) as [|h t]; [contradiction|].
    inversion IH as [|? ? Hh Ht]; subst. constructor; [|exact Ht].
    unfold free_of in *. cbn. now rewrite E, Hh.
Qed.

Lemma first_colon_free (c : ascii) (line k v : string) :
  first_colon line = Some (k, v) ->
  free_of colon k = true /\
  (free_of c line = true -> free_of c k = true /\ free_of c v = true).
Proof.
  revert k v. induction line as [|a line IH]; intros k v H; [discriminate|].
  cbn [first_colon] in H. destruct (Ascii.eqb a colon) eqn:E.
  - injection H as <- <-. split; [reflexivity|].
    intros Hf. apply free_of_cons in Hf as [_ Hf]. now split.
  - destruct (first_colon line) as [[k' v']|]; [|discriminate].
    injection H as <- <-. destruct (IH k' v' eq_refl) as [Hk Hrest]. split.
    + unfold free_of in *. cbn. now rewrite E, Hk.
    + intros Hf. pose proof Hf as Hf'. apply free_of_cons in Hf' as [Ha Hl].
      destruct (Hrest Hl) as [Hk' Hv']. split; [|exact Hv'].
      unfold free_of in *. cbn [all_chars] in *.
      apply andb_true_iff in Hf as [Hf _]. now rewrite Hf, Hk'.
Qed.

(** X5.  Every entry of the metadata that [parseFrontMatter] returns has
    a key and a value without white space at either end (trimming them
    again changes nothing) and without a line break; the key holds no
    colon and is not [__proto__]. *)
Theorem parseFrontMatter_entries_are_clean (block k v : string) :
  parseFrontMatter block !! k = Some v ->
  trim k = k /\ trim v = v /\
  free_of colon k = true /\ free_of newline k = true /\ free_of newline v = true /\
  k <> "__proto__".
Proof.
  unfold parseFrontMatter.
  set (clean := fun k v : string =>
                  trim k = k /\ trim v = v /\
                  free_of colon k = true /\ free_of newline k = true /\
                  free_of newline v = true /\ k <> "__proto__").
  assert (Hfold : forall lines (m : gmap string string),
             Forall (fun l => free_of newline l = true) lines ->
             (forall k v, m !! k = Some v -> clean k v) ->
             forall k v, fold_left frontMatterLine lines m !! k = Some v -> clean k v).
  { induction lines as [|l ls IH]; intros m Hl Hm; [exact Hm|].
    inversion Hl as [|? ? Hfree Hls]; subst. cbn [fold_left]. apply IH; [exact Hls|].
    intros k' v'. rewrite frontMatterLine_entry. unfold line_entry.
    destruct (String.eqb (trim l) EmptyString); [apply Hm|].
    destruct (first_colon l) as [[k0 v0]|] eqn:F; [|apply Hm].
    destruct (String.eqb k0 EmptyString); [apply Hm|].
    rewrite obj_set_lookup.
    destruct (String.eqb_spec (trim k0) "__proto__") as [|Hp]; [apply Hm|].
    destruct (String.eqb_spec (trim k0) k') as [<-|]; [|apply Hm].
    intros H. injection H as <-.
    destruct (first_colon_free newline l k0 v0 F) as [Hc Hn].
    destruct (Hn Hfree) as [Hk Hv].
    repeat split; try apply trim_idempotent; try apply free_of_trim; assumption. }
  apply (Hfold _ ∅ (split_free newline block)).
  intros k' v' H. now rewrite lookup_empty in H.
Qed.

(** ** ContentManager: discovery *)

Lemma obj_set_lookup_plain (k v : string) (m : gmap string string) (k' : string) :
  k <> "__proto__" ->
  obj_set k v m !! k' = if String.eqb k k' then Some v else m !! k'.
Proof.
  intros H. rewrite obj_set_lookup.
  destruct (String.eqb_spec k "__proto__"); [contradiction | reflexivity].
Qed.

(** X6.  An album whose info document loads is returned with the content
    of the document and its metadata, in which the three paths are
    derived from the identifier and replace entries of the same name in
    the document; no other entry is changed.  The manager is left as it
    was: on this path ContentManager writes no error and no warning of
    its own.  (What MarkdownParser writes to the console while it loads
    the document is not in the record of the manager.) *)
Theorem loadAlbumData_derives_paths (albumDir : string) (st : ContentManager)
        (doc : ParsedDocument) :
  loadContent ("content/albums/" +:+ albumDir +:+ "/info.md") = Some doc ->
  exists data,
    loadAlbumData albumDir st = (Ok (Some data), st) /\
    content data = content doc /\
    metadata data !! "coverPath" = Some ("content/albums/" +:+ albumDir +:+ "/cover.jpg") /\
    metadata data !! "tracksDir" = Some ("content/albums/" +:+ albumDir +:+ "/tracks/") /\
    metadata data !! "lyricsDir" = Some ("content/albums/" +:+ albumDir +:+ "/lyrics/") /\
    (forall k, k <> "coverPath" -> k <> "tracksDir" -> k <> "lyricsDir" ->
               metadata data !! k = metadata doc !! k).
Proof.
  intros H. rewrite loadAlbumData_run. unfold albumRecord. rewrite H.
  eexists. split; [reflexivity|]. cbn [content metadata].
  split; [reflexivity|]. repeat split.
  - rewrite !obj_set_lookup_plain by discriminate. reflexivity.
  - rewrite !obj_set_lookup_plain by discriminate. reflexivity.
  - rewrite !obj_set_lookup_plain by discriminate. reflexivity.
  - intros k H1 H2 H3. rewrite !obj_set_lookup_plain by discriminate.
    destruct (String.eqb_spec "lyricsDir" k) as [E|_]; [now contradiction H3|].
    destruct (String.eqb_spec "tracksDir" k) as [E|_]; [now contradiction H2|].
    destruct (String.eqb_spec "coverPath" k) as [E|_]; [now contradiction H1|].
    reflexivity.
Qed.

Lemma discovery_failures_filter (dirs : list string) :
  discovery_failures dirs
  = map (fun dir => (LError, "Failed to load album data for " +:+ dir))
        (List.filter (fun dir =>
                        match loadContent ("content/albums/" +:+ dir +:+ "/info.md") with
                        | Some _ => false
                        | None => true
                        end) dirs).
Proof.
  unfold discovery_failures. induction dirs as [|dir dirs IH]; [reflexivity|].
  cbn [flat_map List.filter]. rewrite IH. unfold albumRecord.
  destruct (loadContent _); reflexivity.
Qed.

Lemma discovered_keys_filter (dirs : list string) :
  List.filter (fun dir => match albumRecord dir with Some _ => true | None => false end) dirs
  = List.filter (fun dir =>
                   match loadContent ("content/albums/" +:+ dir +:+ "/info.md") with
                   | Some _ => true
                   | None => false
                   end) dirs.
Proof.
  induction dirs as [|dir dirs IH]; [reflexivity|].
  cbn [List.filter]. rewrite IH. unfold albumRecord.
  destruct (loadContent _); reflexivity.
Qed.

(** X7.  From an empty mapping and an index without repetition,
    [discoverAlbums] leaves the albums keyed, in insertion order, by the
    identifiers of the index whose info document loaded, in index order;
    and the reports that ContentManager itself writes at the levels
    error and warn are one error, 'Failed to load album data for' the
    identifier, for each of the others, in index order too.  (The
    report that [MarkdownParser.loadContent] writes before it, for the
    same failure, is not in the record of the manager.) *)
Theorem discoverAlbums_follows_the_index (st : ContentManager) (status : Z)
        (text : string) (dirs : list string) :
  fetch "content/albums/index.json" = FetchResponse status text ->
  albumDirectories_of text = Ok dirs ->
  List.NoDup dirs ->
  albums st = [] ->
  let loads := fun dir =>
    match loadContent ("content/albums/" +:+ dir +:+ "/info.md") with
    | Some _ => true
    | None => false
    end in
  let st' := snd (discoverAlbums st) in
  map_keys (albums st') = List.filter loads dirs /\
  console st'
  = console st ++
    map (fun dir => (LError, "Failed to load album data for " +:+ dir))
        (List.filter (fun dir => negb (loads dir)) dirs).
Proof.
  intros Hf Hd Hnd Hempty. cbv zeta.
  rewrite (discoverAlbums_listed st status text dirs Hf Hd). cbn [snd].
  split.
  - cbn [albums with_console with_albums]. rewrite Hempty, discovered_keys.
    + cbn [map_keys map app]. apply discovered_keys_filter.
    + exact Hnd.
    + intros dir _ [].
  - cbn [console with_console]. rewrite discovery_failures_filter. do 2 f_equal.
    clear. induction dirs as [|dir dirs IH]; [reflexivity|].
    cbn [List.filter]. rewrite IH. destruct (loadContent _); reflexivity.
Qed.

Lemma loadStaticContent_cache (st : ContentManager) (file : string) :
  In file staticFiles ->
  fst (loadStaticContent st) = Ok tt /\
  map_get file (contentCache (snd (loadStaticContent st)))
  = match loadContent ("content/" +:+ file +:+ ".md") with
    | Some doc => Some doc
    | None => map_get file (contentCache st)
    end.
Proof.
  intros Hin. unfold loadStaticContent, staticFiles in *. cbn [for_each].
  unfold bind, try_catch, contentCache_set, log, ret. cbn.
  destruct Hin as [<-|[<-|[<-|[]]]]; cbn;
    repeat match goal with
           | |- context [match loadContent ?p with _ => _ end] =>
               destruct (loadContent p) eqn:?
           end;
    cbn; rewrite ?map_get_set; cbn; split; congruence.
Qed.

(** X8.  After [loadStaticContent] the cache holds, for each of bio, news
    and home, the document of the file when it loaded; when it did not,
    the entry of that name is what it was before (none, on a new
    manager): no placeholder is stored.  The method never throws. *)
Theorem loadStaticContent_stores_what_loads (st : ContentManager) (file : string) :
  In file staticFiles ->
  fst (loadStaticContent st) = Ok tt /\
  map_get file (contentCache (snd (loadStaticContent st)))
  = match loadContent ("content/" +:+ file +:+ ".md") with
    | Some doc => Some doc
    | None => map_get file (contentCache st)
    end.
Proof. apply loadStaticContent_cache. Qed.

(** ** ContentManager: the menu and the start of the page *)

Lemma bind_loop_ok (links : list (option string)) (st : ContentManager) :
  Forall (fun href => href <> None) links ->
  for_each links (fun href =>
                    match href with
                    | None => throw TypeError
                    | Some target => bind_section (substring1 target)
                    end) st
  = (Ok tt, with_bound_sections (bound_sections st ++ map fragment_of links) st).
Proof.
  intros H. revert st. induction H as [|href links Hh Hl IH]; intros st.
  - cbn. rewrite app_nil_r. now destruct st.
  - destruct href as [target|]; [|contradiction].
    cbn [for_each]. unfold bind at 1, bind_section at 1. rewrite IH.
    cbn. unfold with_bound_sections. cbn. now rewrite <- app_assoc.
Qed.

Lemma bind_loop_fail (before after : list (option string)) (st : ContentManager) :
  Forall (fun href => href <> None) before ->
  for_each (before ++ None :: after)
           (fun href =>
              match href with
              | None => throw TypeError
              | Some target => bind_section (substring1 target)
              end) st
  = (Throw TypeError,
     with_bound_sections (bound_sections st ++ map fragment_of before) st).
Proof.
  intros H. revert st. induction H as [|href links Hh Hl IH]; intros st.
  - cbn. rewrite app_nil_r. now destruct st.
  - destruct href as [target|]; [|contradiction].
    cbn [app for_each]. unfold bind at 1, bind_section at 1. rewrite IH.
    cbn. unfold with_bound_sections. cbn. now rewrite <- app_assoc.
Qed.

(** X9.  [setupNavigationHandlers] binds every anchor of the menu, in
    order, to its [href] without the first character.  At the first
    anchor without an [href] it throws a TypeError; the anchors before it
    are bound, those after it are not. *)
Theorem setupNavigationHandlers_binds_fragments (st : ContentManager) :
  (Forall (fun href => href <> None) (nav_links (page st)) ->
   setupNavigationHandlers st
   = (Ok tt,
      with_bound_sections
        (bound_sections st ++ map fragment_of (nav_links (page st))) st)) /\
  (forall before after,
      nav_links (page st) = before ++ None :: after ->
      Forall (fun href => href <> None) before ->
      setupNavigationHandlers st
      = (Throw TypeError,
         with_bound_sections (bound_sections st ++ map fragment_of before) st)).
Proof.
  split.
  - intros H. unfold setupNavigationHandlers, bind, get_state. now apply bind_loop_ok.
  - intros before after Hl H. unfold setupNavigationHandlers, bind, get_state.
    rewrite Hl. now apply bind_loop_fail.
Qed.

(** The state in which [initialize] runs [setupNavigationHandlers]. *)
Lemma initialize_before_menu (st : ContentManager) (status : Z) (text : string)
      (dirs : list string) :
  fetch "content/albums/index.json" = FetchResponse status text ->
  albumDirectories_of text = Ok dirs ->
  exists st2,
    initialize st
    = try_catch setupNavigationHandlers
                (fun error => log LError "Initialization failed" ;;; throw error) st2 /\
    albums st2 = discovered dirs (albums st) /\
    page st2 = page st /\
    bound_sections st2 = bound_sections st /\
    (forall file, In file staticFiles ->
                  map_get file (contentCache st2)
                  = match loadContent ("content/" +:+ file +:+ ".md") with
                    | Some doc => Some doc
                    | None => map_get file (contentCache st)
                    end).
Proof.
  intros Hf Hd. unfold initialize, try_catch.
  unfold bind at 1. rewrite (discoverAlbums_listed st status text dirs Hf Hd).
  set (st1 := with_console _ _).
  unfold bind at 1.
  destruct (loadStaticContent_run st1) as (Hok & Ha & Hp & Hb & _).
  pose proof (fun file Hin => proj2 (loadStaticContent_cache st1 file Hin)) as Hc.
  destruct (loadStaticContent st1) as [r st2]. cbn [fst snd] in *. subst r.
  exists st2. repeat split; assumption.
Qed.

(** X10.  One anchor of the menu without an [href] makes [initialize]
    throw a TypeError to its caller, after the albums and the static
    documents have been loaded and stored. *)
Theorem initialize_fails_on_anchor_without_href (st : ContentManager) (status : Z)
        (text : string) (dirs : list string) (before after : list (option string)) :
  fetch "content/albums/index.json" = FetchResponse status text ->
  albumDirectories_of text = Ok dirs ->
  nav_links (page st) = before ++ None :: after ->
  Forall (fun href => href <> None) before ->
  fst (initialize st) = Throw TypeError /\
  (forall dir doc,
      In dir dirs ->
      loadContent ("content/albums/" +:+ dir +:+ "/info.md") = Some doc ->
      exists data, map_get dir (albums (snd (initialize st))) = Some data) /\
  (forall file doc,
      In file staticFiles ->
      loadContent ("content/" +:+ file +:+ ".md") = Some doc ->
      map_get file (contentCache (snd (initialize st))) = Some doc).
Proof.
  intros Hf Hd Hl Hb.
  destruct (initialize_before_menu st status text dirs Hf Hd)
    as (st2 & Hi & Ha & Hp & _ & Hc).
  assert (Hrun : exists st3, initialize st = (Throw TypeError, st3) /\
                             albums st3 = albums st2 /\
                             contentCache st3 = contentCache st2).
  { rewrite Hi. unfold try_catch, setupNavigationHandlers, bind at 1, get_state.
    rewrite Hp, Hl, bind_loop_fail by exact Hb. cbn. eauto. }
  destruct Hrun as (st3 & -> & Ha3 & Hc3). cbn [fst snd]. rewrite Ha3, Hc3.
  split; [reflexivity|]. split.
  - intros dir doc Hin Hdoc. rewrite Ha.
    destruct (albumRecord_some dir doc Hdoc) as (data & Hr & _).
    exists data. now apply discovered_get_loaded.
  - intros file doc Hin Hdoc. rewrite (Hc file Hin), Hdoc. reflexivity.
Qed.

(** X11.  The start of the page (main.js: initialize, then the home
    section).  When the index fetch is rejected the listener throws and
    the page is untouched: the home section is not rendered.  When the
    index is read, the menu is well formed and content/home.md loads,
    the listener completes and the only change to the page is the markup
    of that document in the content slot of the home section. *)
Theorem startup_renders_home (st : ContentManager) :
  (fetch "content/albums/index.json" = FetchRejected ->
   fst (startup st) = Throw NetworkError /\ page (snd (startup st)) = page st) /\
  (forall status text dirs doc el,
      fetch "content/albums/index.json" = FetchResponse status text ->
      albumDirectories_of text = Ok dirs ->
      Forall (fun href => href <> None) (nav_links (page st)) ->
      loadContent "content/home.md" = Some doc ->
      by_id (page st) !! "home" = Some el ->
      is_Some (markdown_content el) ->
      fst (startup st) = Ok tt /\
      page (snd (startup st))
      = set_markdown_content (ById "home") (content doc) (page st)).
Proof.
  split.
  - intros H. unfold startup, bind. rewrite (initialize_rejected st H). now cbn.
  - intros status text dirs doc el Hf Hd Hl Hdoc Hel Hm.
    destruct (initialize_before_menu st status text dirs Hf Hd)
      as (st2 & Hi & _ & Hp & _ & Hc).
    assert (Hrun : exists st3, initialize st = (Ok tt, st3) /\
                               page st3 = page st /\
                               contentCache st3 = contentCache st2).
    { rewrite Hi. unfold try_catch, setupNavigationHandlers, bind at 1, get_state.
      rewrite Hp, bind_loop_ok by exact Hl. cbn. eauto. }
    destruct Hrun as (st3 & Hi3 & Hp3 & Hc3).
    assert (Hcache : map_get "home" (contentCache st3) = Some doc).
    { rewrite Hc3, (Hc "home") by (cbn; auto). cbn. now rewrite Hdoc. }
    assert (Hel3 : by_id (page st3) !! "home" = Some el).
    { now rewrite Hp3. }
    assert (Hhome : loadSection "home" st3
                    = (Ok tt, with_page (set_markdown_content (ById "home") (content doc)
                                                              (page st3)) st3)).
    { rewrite (loadSection_static "home" "home" st3 el) by (cbn; auto).
      apply (renderStaticContent_cached "home" (ById "home") doc st3 Hcache).
      unfold has_markdown_content. rewrite Hel3. now apply bool_decide_eq_true. }
    unfold startup, bind. rewrite Hi3, Hhome. cbn. now rewrite Hp3.
Qed.

(** ** ContentManager: what a request for a section does to the state *)

Lemma rendered_page_unknown (sectionId : string) (st : ContentManager) :
  ~ In sectionId ["music"; "about"; "news"; "home"] ->
  rendered_page sectionId st = page st.
Proof.
  intros H. unfold rendered_page.
  destruct (String.eqb_spec sectionId "music") as [E|_];
    [exfalso; apply H; rewrite E; cbn; auto|].
  destruct (String.eqb_spec sectionId "about") as [E|_];
    [exfalso; apply H; rewrite E; cbn; auto|].
  destruct (String.eqb_spec sectionId "news") as [E|_];
    [exfalso; apply H; rewrite E; cbn; auto|].
  destruct (String.eqb_spec sectionId "home") as [E|_];
    [exfalso; apply H; rewrite E; cbn; auto|].
  reflexivity.
Qed.

Lemma loadSection_effect_static (section key : string) (st : ContentManager) :
  In (section, key) [("about", "bio"); ("news", "news"); ("home", "home")] ->
  let r := loadSection section st in
  fst r = Ok tt /\
  page (snd r)
  = match map_get key (contentCache st) with
    | Some doc =>
        if has_markdown_content (ById section) (page st)
        then set_markdown_content (ById section) (content doc) (page st)
        else page st
    | None => page st
    end /\
  albums (snd r) = albums st /\ contentCache (snd r) = contentCache st /\
  bound_sections (snd r) = bound_sections st.
Proof.
  intros Hin. cbv zeta.
  destruct (by_id (page st) !! section) as [el|] eqn:Hel.
  - rewrite (loadSection_static section key st el Hin Hel).
    unfold renderStaticContent, bind, get_state.
    destruct (map_get key (contentCache st)) as [doc|]; [|now cbn].
    destruct (has_markdown_content (ById section) (page st)); now cbn.
  - assert (Hloc : locate (page st) section = Ok None).
    { destruct Hin as [H|[H|[H|[]]]]; injection H as <- <-;
        rewrite locate_ident by reflexivity; now rewrite Hel. }
    assert (Hno : has_markdown_content (ById section) (page st) = false).
    { unfold has_markdown_content. now rewrite Hel. }
    rewrite Hno.
    assert (Hrun : loadSection section st
                   = (Ok tt, with_console
                               (console st ++
                                  [(LError, "Section container not found: " +:+ section)])
                               st)).
    { destruct Hin as [H|[H|[H|[]]]]; injection H as <- <-;
        unfold loadSection; cbn [String.eqb Ascii.eqb Bool.eqb];
        unfold bind at 1, get_state; unfold bind at 1, lift; now rewrite Hloc. }
    rewrite Hrun. cbn. destruct (map_get key (contentCache st)); auto.
Qed.

Lemma loadSection_effect_music (st : ContentManager) :
  let r := loadSection "music" st in
  fst r = Ok tt /\
  page (snd r)
  = (if has_albums_grid (ById "music") (page st)
     then set_albums_grid "music" (fst (catalog_cards (albums st))) (page st)
     else page st) /\
  albums (snd r) = albums st /\ contentCache (snd r) = contentCache st /\
  bound_sections (snd r) = bound_sections st.
Proof.
  cbv zeta.
  destruct (has_albums_grid (ById "music") (page st)) eqn:Hg.
  - unfold has_albums_grid in Hg.
    destruct (by_id (page st) !! "music") as [el|] eqn:Hel; [|discriminate].
    apply bool_decide_eq_true in Hg.
    rewrite (loadSection_music st el Hel Hg). cbn [fst snd].
    destruct (snd (catalog_cards (albums st))); now cbn.
  - assert (Hrun : exists message,
               loadSection "music" st
               = (Ok tt, with_console (console st ++ [(LError, message)]) st)).
    { unfold loadSection. cbn [String.eqb Ascii.eqb Bool.eqb].
      unfold bind at 1, get_state. unfold bind at 1, lift.
      rewrite locate_ident by reflexivity.
      destruct (by_id (page st) !! "music") as [el|] eqn:Hel.
      - unfold try_catch, renderMusicCatalog, bind at 1, get_state. rewrite Hg.
        cbn. eauto.
      - cbn. eauto. }
    destruct Hrun as [message ->]. now cbn.
Qed.

Lemma loadSection_effect (sectionId : string) (st : ContentManager) :
  page (snd (loadSection sectionId st)) = rendered_page sectionId st /\
  albums (snd (loadSection sectionId st)) = albums st /\
  contentCache (snd (loadSection sectionId st)) = contentCache st /\
  bound_sections (snd (loadSection sectionId st)) = bound_sections st.
Proof.
  destruct (String.eqb_spec sectionId "music") as [->|Hmusic].
  { destruct (loadSection_effect_music st) as (_ & Hp & H). split; [|exact H].
    rewrite Hp. reflexivity. }
  destruct (String.eqb_spec sectionId "about") as [->|Habout].
  { destruct (loadSection_effect_static "about" "bio" st) as (_ & Hp & H);
      [cbn; auto|]. split; [|exact H]. rewrite Hp. reflexivity. }
  destruct (String.eqb_spec sectionId "news") as [->|Hnews].
  { destruct (loadSection_effect_static "news" "news" st) as (_ & Hp & H);
      [cbn; auto|]. split; [|exact H]. rewrite Hp. reflexivity. }
  destruct (String.eqb_spec sectionId "home") as [->|Hhome].
  { destruct (loadSection_effect_static "home" "home" st) as (_ & Hp & H);
      [cbn; auto|]. split; [|exact H]. rewrite Hp. reflexivity. }
  assert (Hun : ~ In sectionId ["music"; "about"; "news"; "home"]).
  { intros [H|[H|[H|[H|[]]]]]; symmetry in H; contradiction. }
  rewrite (rendered_page_unknown _ _ Hun).
  destruct (String.eqb_spec sectionId EmptyString) as [->|Hne]; [now cbn|].
  destruct (locate (page st) sectionId) as [c|e] eqn:Hloc.
  - rewrite (loadSection_unknown sectionId st c Hne Hun Hloc). now cbn.
  - rewrite (loadSection_bad_selector sectionId st e Hne Hloc). now cbn.
Qed.

(** X12.  A request for a section, whatever the identifier and whatever
    its outcome, reads the store and does not write it: the albums
    mapping, the cache of static documents and the handlers of the menu
    are as before; nothing is fetched again. *)
Theorem loadSection_leaves_the_store (sectionId : string) (st : ContentManager) :
  albums (snd (loadSection sectionId st)) = albums st /\
  contentCache (snd (loadSection sectionId st)) = contentCache st /\
  bound_sections (snd (loadSection sectionId st)) = bound_sections st.
Proof. apply loadSection_effect. Qed.

Lemma set_albums_grid_twice (id : string) (cards cards' : list album_card) (d : document) :
  set_albums_grid id cards (set_albums_grid id cards' d) = set_albums_grid id cards d.
Proof.
  unfold set_albums_grid. cbn. f_equal.
  rewrite alter_alter_eq. apply alter_ext. now intros el _.
Qed.

Lemma set_markdown_content_twice (id html html' : string) (d : document) :
  set_markdown_content (ById id) html (set_markdown_content (ById id) html' d)
  = set_markdown_content (ById id) html d.
Proof.
  unfold set_markdown_content. cbn. f_equal.
  rewrite alter_alter_eq. apply alter_ext. now intros el _.
Qed.

Lemma has_albums_grid_set (id : string) (cards : list album_card) (d : document) :
  has_albums_grid (ById id) d = true ->
  has_albums_grid (ById id) (set_albums_grid id cards d) = true.
Proof.
  unfold has_albums_grid, set_albums_grid. cbn. rewrite lookup_alter_eq.
  destruct (by_id d !! id); [|discriminate]. intros _. cbn.
  first [reflexivity | apply bool_decide_eq_true; eauto].
Qed.

Lemma has_markdown_content_set (id html : string) (d : document) :
  has_markdown_content (ById id) d = true ->
  has_markdown_content (ById id) (set_markdown_content (ById id) html d) = true.
Proof.
  unfold has_markdown_content, set_markdown_content. cbn. rewrite lookup_alter_eq.
  destruct (by_id d !! id); [|discriminate]. intros _. cbn.
  first [reflexivity | apply bool_decide_eq_true; eauto].
Qed.

(** X13.  Requesting the same section twice in a row leaves the page as
    one request does: the catalogue is cleared before it is filled, and a
    static section receives the same markup again, so nothing is
    duplicated. *)
Theorem loadSection_twice (sectionId : string) (st : ContentManager) :
  page (snd (loadSection sectionId (snd (loadSection sectionId st))))
  = page (snd (loadSection sectionId st)).
Proof.
  destruct (loadSection_effect sectionId st) as (Hp & Ha & Hc & _).
  destruct (loadSection_effect sectionId (snd (loadSection sectionId st)))
    as (Hp2 & _).
  rewrite Hp2. unfold rendered_page at 1. rewrite Ha, Hc, Hp.
  unfold rendered_page.
  destruct (String.eqb sectionId "music").
  { destruct (has_albums_grid (ById sectionId) (page st)) eqn:Hg.
    - rewrite (has_albums_grid_set _ _ _ Hg). apply set_albums_grid_twice.
    - now rewrite Hg. }
  assert (Hstatic : forall key,
             match map_get key (contentCache st) with
             | Some doc =>
                 if has_markdown_content (ById sectionId)
                      match map_get key (contentCache st) with
                      | Some doc0 =>
                          if has_markdown_content (ById sectionId) (page st)
                          then set_markdown_content (ById sectionId) (content doc0) (page st)
                          else page st
                      | None => page st
                      end
                 then set_markdown_content (ById sectionId) (content doc)
                        match map_get key (contentCache st) with
                        | Some doc0 =>
                            if has_markdown_content (ById sectionId) (page st)
                            then set_markdown_content (ById sectionId) (content doc0) (page st)
                            else page st
                        | None => page st
                        end
                 else match map_get key (contentCache st) with
                      | Some doc0 =>
                          if has_markdown_content (ById sectionId) (page st)
                          then set_markdown_content (ById sectionId) (content doc0) (page st)
                          else page st
                      | None => page st
                      end
             | None => match map_get key (contentCache st) with
                       | Some doc0 =>
                           if has_markdown_content (ById sectionId) (page st)
                           then set_markdown_content (ById sectionId) (content doc0) (page st)
                           else page st
                       | None => page st
                       end
             end
             = match map_get key (contentCache st) with
               | Some doc0 =>
                   if has_markdown_content (ById sectionId) (page st)
                   then set_markdown_content (ById sectionId) (content doc0) (page st)
                   else page st
               | None => page st
               end).
  { intros key. destruct (map_get key (contentCache st)) as [doc|]; [|reflexivity].
    destruct (has_markdown_content (ById sectionId) (page st)) eqn:Hm.
    - rewrite (has_markdown_content_set _ _ _ Hm). apply set_markdown_content_twice.
    - now rewrite Hm. }
  destruct (String.eqb sectionId "about"); [apply Hstatic|].
  destruct (String.eqb sectionId "news"); [apply Hstatic|].
  destruct (String.eqb sectionId "home"); [apply Hstatic|].
  reflexivity.
Qed.

(** X14.  A request for a section touches no element of the page but the
    one that carries the identifier: every other element, the overlays
    and the menu are as before.  In the element itself, rendering the
    catalogue leaves the markup slot and rendering a static section
    leaves the grid. *)
Theorem loadSection_touches_its_section_only (sectionId : string) (st : ContentManager) :
  let d := page (snd (loadSection sectionId st)) in
  (forall id, id <> sectionId -> by_id d !! id = by_id (page st) !! id) /\
  overlays d = overlays (page st) /\
  nav_links d = nav_links (page st) /\
  (sectionId = "music" ->
   markdown_content <$> (by_id d !! sectionId)
   = markdown_content <$> (by_id (page st) !! sectionId)) /\
  (sectionId <> "music" ->
   albums_grid <$> (by_id d !! sectionId)
   = albums_grid <$> (by_id (page st) !! sectionId)).
Proof.
  cbv zeta. destruct (loadSection_effect sectionId st) as (-> & _).
  unfold rendered_page.
  assert (Hstatic : forall key,
             let d := match map_get key (contentCache st) with
                      | Some doc =>
                          if has_markdown_content (ById sectionId) (page st)
                          then set_markdown_content (ById sectionId) (content doc) (page st)
                          else page st
                      | None => page st
                      end in
             (forall id, id <> sectionId -> by_id d !! id = by_id (page st) !! id) /\
             overlays d = overlays (page st) /\
             nav_links d = nav_links (page st) /\
             albums_grid <$> (by_id d !! sectionId)
             = albums_grid <$> (by_id (page st) !! sectionId)).
  { intros key. cbv zeta.
    destruct (map_get key (contentCache st)) as [doc|]; [|now repeat split].
    destruct (has_markdown_content (ById sectionId) (page st)); [|now repeat split].
    unfold set_markdown_content. cbn.
    split; [|split; [reflexivity|split; [reflexivity|]]].
    - intros id Hid. now apply lookup_alter_ne.
    - rewrite lookup_alter_eq. now destruct (by_id (page st) !! sectionId). }
  destruct (String.eqb_spec sectionId "music") as [Hm|Hm].
  { destruct (has_albums_grid (ById sectionId) (page st)).
    - unfold set_albums_grid. cbn.
      split; [|split; [reflexivity|split; [reflexivity|split]]].
      + intros id Hid. now apply lookup_alter_ne.
      + intros _. rewrite lookup_alter_eq. now destruct (by_id (page st) !! sectionId).
      + intros H. contradiction.
    - split; [reflexivity|]. split; [reflexivity|]. split; [reflexivity|].
      split; [reflexivity|]. intros H. contradiction. }
  assert (Hgoal : forall key,
             let d := match map_get key (contentCache st) with
                      | Some doc =>
                          if has_markdown_content (ById sectionId) (page st)
                          then set_markdown_content (ById sectionId) (content doc) (page st)
                          else page st
                      | None => page st
                      end in
             (forall id, id <> sectionId -> by_id d !! id = by_id (page st) !! id) /\
             overlays d = overlays (page st) /\
             nav_links d = nav_links (page st) /\
             (sectionId = "music" ->
              markdown_content <$> (by_id d !! sectionId)
              = markdown_content <$> (by_id (page st) !! sectionId)) /\
             (sectionId <> "music" ->
              albums_grid <$> (by_id d !! sectionId)
              = albums_grid <$> (by_id (page st) !! sectionId))).
  { intros key. destruct (Hstatic key) as (H1 & H2 & H3 & H4). cbv zeta.
    split; [exact H1|]. split; [exact H2|]. split; [exact H3|].
    split; [intros H; contradiction | intros _; exact H4]. }
  destruct (String.eqb sectionId "about"); [apply Hgoal|].
  destruct (String.eqb sectionId "news"); [apply Hgoal|].
  destruct (String.eqb sectionId "home"); [apply Hgoal|].
  split; [reflexivity|]. split; [reflexivity|]. split; [reflexivity|].
  split; reflexivity.
Qed.

(** ** ContentManager: overlays *)

Lemma lyricsClick_run (lyricsFile : string) (st : ContentManager) :
  exists st',
    lyricsClick lyricsFile st = (Ok tt, st') /\
    page st'
    = append_overlay
        (mkModal "modal lyrics-modal"
                 match loadContent lyricsFile with
                 | Some doc => content doc
                 | None => "Lyrics not available"
                 end) (page st) /\
    albums st' = albums st /\ contentCache st' = contentCache st.
Proof.
  unfold lyricsClick, bind, loadLyrics, try_catch, showLyricsModal.
  destruct (loadContent lyricsFile) as [doc|]; cbn; eauto.
Qed.

(** X15.  Every click on a lyrics button completes and appends exactly
    one lyrics overlay after the overlays already there, holding the
    converted content of the lyrics document, or the fallback text when
    the document does not load; the sections of the page are untouched.
    Nothing prevents a second click from adding a second overlay. *)
Theorem lyricsClick_appends_one_overlay (lyricsFile : string) (st : ContentManager) :
  let text := match loadContent lyricsFile with
              | Some doc => content doc
              | None => "Lyrics not available"
              end in
  fst (lyricsClick lyricsFile st) = Ok tt /\
  overlays (page (snd (lyricsClick lyricsFile st)))
  = overlays (page st) ++ [mkModal "modal lyrics-modal" text] /\
  by_id (page (snd (lyricsClick lyricsFile st))) = by_id (page st) /\
  overlays (page (snd (lyricsClick lyricsFile (snd (lyricsClick lyricsFile st)))))
  = overlays (page st) ++ [mkModal "modal lyrics-modal" text;
                           mkModal "modal lyrics-modal" text].
Proof.
  cbv zeta.
  destruct (lyricsClick_run lyricsFile st) as (st1 & H1 & Hp1 & _).
  destruct (lyricsClick_run lyricsFile st1) as (st2 & H2 & Hp2 & _).
  rewrite H1. cbn [fst snd]. rewrite H2. cbn [snd]. rewrite Hp2, Hp1. cbn.
  repeat split. now rewrite <- app_assoc.
Qed.

Lemma delete_last {A : Type} (l : list A) (x : A) : delete (length l) (l ++ [x]) = l.
Proof.
  induction l as [|a l IH]; [reflexivity|]. cbn. f_equal. exact IH.
Qed.

(** X16.  Dismissing an overlay undoes its opening: after a click on a
    lyrics button, a click on the close control of the new overlay, or on
    its background, leaves the page as it was before the button was
    clicked; a click inside the content of the overlay leaves it open. *)
Theorem overlay_close_undoes_open (lyricsFile : string) (st : ContentManager)
        (target : click_target) :
  let opened := snd (lyricsClick lyricsFile st) in
  let position := length (overlays (page st)) in
  page (snd (modalClick position target opened))
  = match target with
    | OnContent => page opened
    | OnCloseButton => page st
    | OnBackground => page st
    end.
Proof.
  cbv zeta. destruct (lyricsClick_run lyricsFile st) as (st1 & H1 & Hp1 & _).
  rewrite H1. cbn [snd].
  destruct target; cbn; [| |reflexivity];
    rewrite Hp1; unfold remove_overlay, append_overlay; cbn;
    rewrite delete_last; now destruct (page st).
Qed.


(** X18.  The album overlay cannot be opened: the metadata that the
    parser produces holds strings only, so the track list that
    [showAlbumDetails] builds first calls [map] on a string or on
    undefined and throws a TypeError; the overlay is never appended and
    the page, the albums and the cache are as before, for every album
    and in every state. *)
Theorem showAlbumDetails_never_opens (dir : string) (albumData : ParsedDocument)
        (st : ContentManager) :
  showAlbumDetails dir albumData st = (Throw TypeError, st).
Proof.
  unfold showAlbumDetails, bind, lift, createTrackList.
  destruct (metadata albumData !! "tracks"); reflexivity.
Qed.

(** ** AudioPlayer *)

(** X19.  [handleError] names the error by its MediaError code: 1 is the
    abort by the user, 2 the network error, 3 the decoding failure, 4
    the unsupported format; without an error object, and for every
    other code, the message is 'Unknown error'. *)
Theorem handleError_classifies (w : AudioPlayer) :
  handleError_message w
  = match audio_error w with
    | Some 1 => "Playback aborted by user"
    | Some 2 => "Network error while loading"
    | Some 3 => "Audio decoding failed"
    | Some 4 => "Audio format not supported"
    | _ => "Unknown error"
    end.
Proof.
  unfold handleError_message.
  destruct (audio_error w) as [[|[|[|[|[|n]]]]]|]; try reflexivity.
  cbn. now destruct n.
Qed.

(** X20.  The label of the button and its class never disagree: in
    every state that the widget reaches from its construction, by clicks,
    settled promises of [audio.play()], media events and calls of
    [loadTrack], the label is Pause when the class list has 'playing'
    and Play when it has not.  The button follows the promise and not
    the click: a click on a paused widget leaves the button as it is,
    and the button takes the playing appearance when the promise is
    fulfilled and the paused appearance when it is rejected; a click on
    a playing widget gives the paused appearance at once. *)
Theorem button_label_follows_its_class (calls : list player_call) (w : AudioPlayer)
        (fulfilled : bool) :
  let reached := fold_left perform calls new_player in
  playButton_label reached = (if playButton_playing reached then "Pause" else "Play") /\
  (playButton_playing (dispatch w Click)
   = (if audio_paused w then playButton_playing w else false) /\
   playButton_label (dispatch w Click)
   = (if audio_paused w then playButton_label w else "Play")) /\
  (playButton_playing (dispatch w (PlaySettled fulfilled)) = fulfilled /\
   playButton_label (dispatch w (PlaySettled fulfilled))
   = (if fulfilled then "Pause" else "Play")).
Proof.
  cbv zeta. split; [|split].
  - assert (Hinv : forall w0,
               playButton_label w0 = (if playButton_playing w0 then "Pause" else "Play") ->
               playButton_label (fold_left perform calls w0)
               = (if playButton_playing (fold_left perform calls w0)
                  then "Pause" else "Play")).
    { induction calls as [|c calls IH]; intros w0 H0; [exact H0|].
      cbn [fold_left]. apply IH.
      destruct c as [[|b|p|t|d| |code]|url]; cbn; try exact H0; try reflexivity.
      unfold togglePlay. destruct (audio_paused w0); [exact H0 | reflexivity]. }
    apply Hinv. reflexivity.
  - cbn. unfold togglePlay. destruct (audio_paused w); split; reflexivity.
  - cbn. split; reflexivity.
Qed.

(** X21.  The widget never changes its source by itself: after any
    sequence of clicks and media events the source is the one the widget
    had, so only [loadTrack] sets it; in particular a media error is not
    followed by a new attempt. *)
Theorem events_keep_the_source (w : AudioPlayer) (events : list player_event) :
  audio_src (fold_left dispatch events w) = audio_src w.
Proof.
  revert w. induction events as [|e events IH]; intros w; [reflexivity|].
  cbn [fold_left]. rewrite IH.
  destruct e; cbn; try reflexivity.
  unfold togglePlay. now destruct (audio_paused w).
Qed.

Lemma two_digits (z : Z) :
  (0 <= z < 60)%Z ->
  String.length (padStart2 (NilZero.string_of_int (Z.to_int z))) = 2.
Proof.
  intros H. rewrite <- (Z2Nat.id z) by lia.
  assert (Hn : Z.to_nat z < 60) by lia.
  generalize dependent (Z.to_nat z). clear H. intros n Hn.
  do 60 (destruct n as [|n]; [reflexivity|]). lia.
Qed.

(** X22.  For a finite duration that is not negative the text of
    [formatTime] is the text of the minutes, a colon, and the seconds in
    exactly two characters; the seconds shown are the whole seconds
    modulo 60, so below 60.  When the duration is a binary64 value below
    2^55, the minutes are the whole seconds divided by 60, printed in
    decimal.  (From 2^55 on the rounding of the division can add a
    minute, and from 10^21 minutes on the minutes are printed in
    exponent notation: see the runs at the end.) *)
Theorem formatTime_has_two_digit_seconds (q : Q) :
  (0 <= q)%Q ->
  let seconds := (Qfloor q mod 60)%Z in
  (0 <= seconds < 60)%Z /\
  formatTime (Finite q)
  = int_to_string (math_floor (div60 (Finite q))) +:+ ":" +:+
    padStart2 (decimal seconds) /\
  String.length (padStart2 (decimal seconds)) = 2 /\
  (is_double q = true -> (q < 2 ^ 55)%Q ->
   formatTime (Finite q)
   = decimal (Qfloor q / 60) +:+ ":" +:+ padStart2 (decimal seconds)).
Proof.
  intros H. cbv zeta.
  assert (Hm : (0 <= Qfloor q mod 60 < 60)%Z) by (apply Z.mod_pos_bound; lia).
  split; [exact Hm|]. split; [|split].
  - unfold formatTime. rewrite (formatTime_seconds q H).
    rewrite (int_to_string_small (Qfloor q mod 60)); [reflexivity|].
    assert (60 < 2 ^ 53)%Z by reflexivity. lia.
  - now apply two_digits.
  - intros Hd Hb. now apply formatTime_finite.
Qed.

(** X23.  When every stored album has a [tracks] entry, a request for the
    music section completes without a diagnostic and replaces the
    children of the grid, whatever they were, by one card for each
    stored album, in the insertion order of the albums mapping, each
    card carrying the identifier of its album. *)
Theorem catalogue_has_one_card_per_album (st : ContentManager) (el : section_el)
        (old_cards : list album_card) :
  by_id (page st) !! "music" = Some el ->
  albums_grid el = Some old_cards ->
  Forall (fun entry => is_Some (metadata (snd entry) !! "tracks")) (albums st) ->
  exists cards,
    loadSection "music" st
    = (Ok tt, with_page (set_albums_grid "music" cards (page st)) st) /\
    by_id (page (snd (loadSection "music" st))) !! "music"
    = Some (mkSection (markdown_content el) (Some cards)) /\
    map card_dir cards = map_keys (albums st) /\
    length cards = length (albums st).
Proof.
  intros Hel Hg Htracks.
  destruct (catalog_cards_complete (albums st) Htracks) as [Hc Hd].
  exists (fst (catalog_cards (albums st))).
  rewrite (loadSection_music st el Hel) by (rewrite Hg; eauto).
  rewrite Hc. cbn [snd page with_page].
  split; [reflexivity|]. split; [|split].
  - unfold set_albums_grid. cbn. rewrite lookup_alter_eq, Hel. reflexivity.
  - exact Hd.
  - rewrite <- (length_map card_dir), Hd. unfold map_keys. apply length_map.
Qed.

End World.

(** * Concrete runs *)

(** ** The parser on sample documents *)

Example parse_sample_album :
  parseContent sample_marked
    (JStr (text_of ["---"; "title: First"; "tracks:"; "---"; "The first album."]))
  = mkDoc {[ "title" := "First"; "tracks" := EmptyString ]} "<p>The first album.</p>".
Proof. vm_compute. reflexivity. Qed.

Example parse_without_fence :
  parseContent sample_marked (JStr "Prose only.") = mkDoc ∅ "<p>Prose only.</p>".
Proof. vm_compute. reflexivity. Qed.

Example parse_converter_failure :
  parseContent sample_marked (JStr (text_of ["---"; "a: b"; "---"; ""]))
  = mkDoc {[ "a" := "b" ]} EmptyString.
Proof. vm_compute. reflexivity. Qed.

(** C2.  Two inputs that begin with a fence line and contain a later
    fence line, on which [splitFrontMatter] finds no front matter and
    returns the whole input as the body.  In the first the two fence
    lines are adjacent (the block between them is empty): the
    specification gives the body after the closing fence, the parser
    converts the fences too.  In the second the closing fence is the last
    line and has no line break after it: the specification gives the
    block, the parser returns empty metadata. *)
Theorem fences_that_the_pattern_misses :
  let adjacent := text_of ["---"; "---"; "body"] in
  let at_end := text_of ["---"; "title: T"; "---"] in
  (spec_splitFrontMatter adjacent = (EmptyString, "body") /\
   splitFrontMatter (JStr adjacent) = (EmptyString, JStr adjacent) /\
   content (parseContent sample_marked (JStr adjacent)) = "<p>" +:+ adjacent +:+ "</p>") /\
  (spec_splitFrontMatter at_end = ("title: T", EmptyString) /\
   splitFrontMatter (JStr at_end) = (EmptyString, JStr at_end) /\
   metadata (parseContent sample_marked (JStr at_end)) = ∅).
Proof. vm_compute. repeat split. Qed.

(** C3.  Two metadata lines on which [parseFrontMatter] does not record
    what the specification says.  A line whose key is white space only
    passes the test on the key, made before the trimming, and is recorded
    under the empty key, where the specification skips it.  A line whose
    key is [__proto__] records nothing, where the specification records
    the entry. *)
Theorem lines_that_the_callback_mishandles :
  (parseFrontMatter " : v" = {[ EmptyString := "v" ]} /\
   spec_parseFrontMatter " : v" = ∅) /\
  (parseFrontMatter "__proto__: x" = ∅ /\
   spec_parseFrontMatter "__proto__: x" = {[ "__proto__" := "x" ]}).
Proof. vm_compute. repeat split. Qed.

Example metadata_last_write_wins :
  parseFrontMatter (text_of ["title: One"; ""; "no colon here"; ":no key";
                             "url: http://example.org "; "title:  Two"])
  = {[ "title" := "Two"; "url" := "http://example.org" ]}.
Proof. vm_compute. reflexivity. Qed.

(** ** Discovery and rendering in the sample world *)

Example sample_discovery :
  let st := snd (initialize sample_marked sample_fetch sample_index
                            (new_ContentManager sample_page)) in
  map_keys (albums st) = ["first"; "second"] /\
  map_keys (contentCache st) = ["bio"; "news"; "home"] /\
  console st = [(LError, "Failed to load album data for gone")] /\
  bound_sections st = ["home"; "music"; "about"; "news"].
Proof. vm_compute. repeat split. Qed.

Example sample_catalog :
  let st := snd (initialize sample_marked sample_fetch sample_index
                            (new_ContentManager sample_page)) in
  let st' := snd (loadSection no_compound "music" st) in
  by_id (page st') !! "music"
  = Some (mkSection None
            (Some [mkCard "first" "content/albums/first/cover.jpg" "First" "2020" 0;
                   mkCard "second" "content/albums/second/cover.jpg" "Second"
                          "undefined" 8])).
Proof. vm_compute. reflexivity. Qed.

(** C4.  The request for the album index fails with status 500, and the
    body of the response reads as an index.  [discoverAlbums] never tests
    the status of that response: discovery goes on as after a success and
    [initialize] completes, with the albums of the body stored and no
    report of the failed request; nothing propagates to the caller.  The
    sibling [loadContent], which tests [response.ok], takes the same
    response as a failure. *)
Theorem index_status_is_not_tested :
  let st := new_ContentManager sample_page in
  let run := initialize sample_marked index_500_fetch sample_index st in
  index_500_fetch "content/albums/index.json" = FetchResponse 500 "index" /\
  response_ok 500 = false /\
  loadContent sample_marked index_500_fetch "content/albums/index.json" = None /\
  fst run = Ok tt /\
  map_keys (albums (snd run)) = ["first"; "second"] /\
  console (snd run) = [(LError, "Failed to load album data for gone")].
Proof. vm_compute. repeat split. Qed.

(** C5.  An index that lists two albums, the first of which has an info
    document without a [tracks] line.  Both load and are stored, in index
    order.  Rendering the catalogue clears the grid and then fails on the
    first album, where the card template reads the length of the missing
    [tracks]: no card is appended for either album, and [loadSection]
    logs the error. *)
Theorem catalog_stops_at_album_without_tracks :
  let st := snd (initialize sample_marked sample_fetch plain_index
                            (new_ContentManager sample_page)) in
  let st' := snd (loadSection no_compound "music" st) in
  map_keys (albums st) = ["plain"; "first"] /\
  option_map (fun album => metadata album !! "tracks") (map_get "plain" (albums st))
  = Some None /\
  fst (loadSection no_compound "music" st) = Ok tt /\
  by_id (page st') !! "music" = Some (mkSection None (Some [])) /\
  console st' = [(LError, "Error loading section music")].
Proof. vm_compute. repeat split. Qed.

(** C6, as stated, fails.  In the sample world the three static documents
    load.  The document of the about section is cached under the key bio,
    and the cache has no key about: not every section of home, about and
    news has its document under its own name. *)
Lemma about_is_cached_under_bio :
  let st := snd (initialize sample_marked sample_fetch sample_index
                            (new_ContentManager sample_page)) in
  (exists doc,
      loadContent sample_marked sample_fetch "content/bio.md" = Some doc /\
      map_get "bio" (contentCache st) = Some doc) /\
  map_get "about" (contentCache st) = None /\
  ~ (forall section,
        In section ["home"; "about"; "news"] ->
        exists doc, map_get section (contentCache st) = Some doc).
Proof.
  cbv zeta. split; [|split].
  - eexists. split; vm_compute; reflexivity.
  - vm_compute. reflexivity.
  - intros H. destruct (H "about") as [doc Hdoc].
    + cbn. tauto.
    + vm_compute in Hdoc. discriminate.
Qed.


(** A fragment that begins with a digit does not make a selector: the
    exception of the lookup leaves [loadSection], whatever the engine. *)
Example digit_fragment_is_rejected (engine : document -> string -> exc bool)
        (st : ContentManager) :
  loadSection engine "2024-tour" st = (Throw SyntaxError, st).
Proof. reflexivity. Qed.

(** C8.  The duration of a media element without metadata is NaN, and
    [formatTime] renders it as NaN:NaN: nothing throws, so the branch
    that returns 0:00 is not taken. *)
Theorem formatTime_of_NaN :
  formatTime NaN = "NaN:NaN" /\ formatTime NaN <> "0:00".
Proof. split; [reflexivity | discriminate]. Qed.

Example formatTime_0 : formatTime (Finite 0) = "0:00".
Proof. reflexivity. Qed.

Example formatTime_65 : formatTime (Finite 65) = "1:05".
Proof. reflexivity. Qed.

Example formatTime_599 : formatTime (Finite 599) = "9:59".
Proof. reflexivity. Qed.

Example formatTime_truncates : formatTime (Finite (1199 # 10)) = "1:59".
Proof. reflexivity. Qed.

Example formatTime_of_Infinity : formatTime (Infinity false) = "Infinity:NaN".
Proof. reflexivity. Qed.

(** Past 2^55 the division can round up to the next minute: the
    duration below is 60 * (2^50 + 1) - 4 seconds, four seconds short of
    the minute that is shown. *)
Example formatTime_rounds_the_division :
  is_double 67553994410557496 = true /\
  formatTime (Finite 67553994410557496) = "1125899906842625:56" /\
  (Qfloor 67553994410557496 / 60 = 1125899906842624)%Z.
Proof. repeat split; vm_compute; reflexivity. Qed.

Example formatTime_of_3e17 :
  formatTime (Finite 300000000000000512) = "5000000000000009:32".
Proof. vm_compute. reflexivity. Qed.

(** From 10^21 minutes on the minutes are in exponent notation. *)
Example formatTime_of_6e22 :
  formatTime (Finite 60000000000000000000000) = "1e+21:00".
Proof. vm_compute. reflexivity. Qed.

(** ** The widget on a sample run *)

Example player_run :
  let playing :=
    fold_left (dispatch sample_percent)
              [LoadedMetadata (Finite 200); Click; PausedChanged false;
               PlaySettled true; TimeUpdate (Finite 100); MediaFailure 2]
              new_player in
  (audio_paused playing = false /\
   playButton_playing playing = true /\
   playButton_label playing = "Pause" /\
   progress_width playing = "50%" /\
   currentTime_text playing = "1:40" /\
   duration_text playing = "3:20" /\
   audio_error playing = Some 2) /\
  loadTrack "content/albums/first/tracks/one.mp3" playing
  = mkPlayer "content/albums/first/tracks/one.mp3" false (Finite 100) (Finite 200)
             (Some 2) "Play" false "0%" "1:40" "3:20".
Proof. vm_compute. repeat split. Qed.

Example blocked_playback_keeps_the_button :
  let w := fold_left (dispatch sample_percent) [Click; PlaySettled false] new_player in
  audio_paused w = true /\ playButton_playing w = false /\ playButton_label w = "Play".
Proof. vm_compute. repeat split. Qed.

(** Before the metadata of the track has arrived the duration is NaN:
    the width that [updateProgress] assigns is NaN%, which the style
    ignores, and the progress bar keeps the width it had. *)
Example progress_before_metadata :
  let w := fold_left (dispatch sample_percent)
                     [TimeUpdate (Finite 100); Ended; TimeUpdate (Finite 3)]
                     new_player in
  progress_width (dispatch sample_percent new_player (TimeUpdate (Finite 100)))
  = EmptyString /\
  progress_width w = "0%" /\ currentTime_text w = "0:03".
Proof. vm_compute. repeat split. Qed.

(** ** Witnesses *)

Lemma album_failure_is_not_fatal_witness :
  fst (initialize sample_marked offline_fetch sample_index
                  (new_ContentManager sample_page)) = Throw NetworkError /\
  fst (discoverAlbums sample_marked sample_fetch sample_index
                      (new_ContentManager sample_page)) = Ok tt /\
  fst (initialize sample_marked sample_fetch sample_index
                  (new_ContentManager sample_page)) = Ok tt.
Proof.
  split; [|split].
  - rewrite (proj2 (proj1 (album_failure_is_not_fatal sample_marked offline_fetch
                             sample_index (new_ContentManager sample_page))
                          eq_refl)).
    reflexivity.
  - exact (proj1 (proj2 (proj2 (album_failure_is_not_fatal sample_marked sample_fetch
                                  sample_index (new_ContentManager sample_page)))
                        200%Z "index" ["first"; "gone"; "second"] eq_refl eq_refl)).
  - apply (proj2 (proj2 (proj2 (proj2 (proj2 (album_failure_is_not_fatal sample_marked
                                                sample_fetch sample_index
                                                (new_ContentManager sample_page)))
                                      200%Z "index" ["first"; "gone"; "second"]
                                      eq_refl eq_refl)))).
    vm_compute. repeat constructor; discriminate.
Defined.

Lemma static_cache_is_keyed_by_file_witness :
  map_get "bio"
    (contentCache (snd (loadStaticContent sample_marked sample_fetch
                                          (new_ContentManager sample_page))))
  = Some (mkDoc ∅ "<p>About the artist.</p>") /\
  (let st := snd (loadStaticContent sample_marked sample_fetch
                                    (new_ContentManager sample_page)) in
   loadSection no_compound "about" st
   = (Ok tt,
      with_page (set_markdown_content (ById "about") "<p>About the artist.</p>" (page st))
                st)).
Proof.
  split.
  - apply (proj1 (static_cache_is_keyed_by_file sample_marked sample_fetch no_compound
                    (new_ContentManager sample_page))).
    + cbn. tauto.
    + vm_compute. reflexivity.
  - cbv zeta.
    apply (proj1 (proj2 (proj2 (static_cache_is_keyed_by_file sample_marked sample_fetch
                                  no_compound
                                  (snd (loadStaticContent sample_marked sample_fetch
                                          (new_ContentManager sample_page))))
                               "about" "bio" (mkSection (Some EmptyString) None)
                               (or_intror (or_introl eq_refl)) eq_refl))
                 (mkDoc ∅ "<p>About the artist.</p>")).
    + vm_compute. reflexivity.
    + cbn. eauto.
Defined.


Lemma lyrics_fallback_witness :
  overlays (page (snd (lyricsClick sample_marked sample_fetch
                                   "content/albums/first/lyrics/one.md"
                                   (new_ContentManager sample_page))))
  = [mkModal "modal lyrics-modal" "Lyrics not available"].
Proof.
  apply (lyrics_fallback sample_marked sample_fetch "content/albums/first/lyrics/one.md"
           (new_ContentManager sample_page)).
  vm_compute. reflexivity.
Defined.

(** ** Witnesses of the further properties *)

Lemma splitFrontMatter_loses_nothing_witness :
  ("a: b" = EmptyString /\ "body" = text_of ["---"; "a: b"; "---"; "body"]) \/
  text_of ["---"; "a: b"; "---"; "body"] = opening +:+ "a: b" +:+ closing +:+ "body".
Proof.
  apply (splitFrontMatter_loses_nothing (text_of ["---"; "a: b"; "---"; "body"])
           "a: b" "body").
  vm_compute. reflexivity.
Defined.


Lemma parseContent_of_fenced_document_witness :
  parseContent sample_marked (JStr (text_of ["---"; "title: T"; "---"; "Body"]))
  = mkDoc (parseFrontMatter "title: T") (parseMarkdown sample_marked "Body").
Proof.
  apply (parseContent_of_fenced_document sample_marked ["title: T"] ["Body"]).
  - discriminate.
  - discriminate.
  - repeat constructor. discriminate.
  - repeat constructor.
Defined.

Lemma loadContent_null_iff_witness :
  loadContent sample_marked sample_fetch "content/albums/gone/info.md" = None /\
  loadContent sample_marked sample_fetch "content/albums/cut/info.md" = None /\
  loadContent sample_marked sample_fetch "content/bio.md"
  = Some (parseContent sample_marked (JStr "About the artist.")).
Proof.
  split; [|split].
  - apply (proj1 (loadContent_null_iff sample_marked sample_fetch
                    "content/albums/gone/info.md")).
    right. left. exists 404%Z, "Not Found". split; [reflexivity | lia].
  - apply (proj1 (loadContent_null_iff sample_marked sample_fetch
                    "content/albums/cut/info.md")).
    right. right. now exists 200%Z.
  - apply (proj2 (loadContent_null_iff sample_marked sample_fetch "content/bio.md")
                 200%Z "About the artist."); [reflexivity | lia].
Defined.

Lemma parseFrontMatter_entries_are_clean_witness :
  trim "title" = "title" /\ trim "First" = "First" /\
  free_of colon "title" = true /\ free_of newline "title" = true /\
  free_of newline "First" = true /\ "title" <> "__proto__".
Proof.
  apply (parseFrontMatter_entries_are_clean "  title :  First  " "title" "First").
  vm_compute. reflexivity.
Defined.

Lemma loadAlbumData_derives_paths_witness :
  exists data,
    loadAlbumData sample_marked sample_fetch "second" (new_ContentManager sample_page)
    = (Ok (Some data), new_ContentManager sample_page) /\
    metadata data !! "coverPath" = Some "content/albums/second/cover.jpg".
Proof.
  destruct (loadAlbumData_derives_paths sample_marked sample_fetch "second"
              (new_ContentManager sample_page)
              (parseContent sample_marked
                 (JStr (text_of ["---"; "title: Second"; "tracks: one, two"; "---";
                                 "The second album."]))))
    as (data & Hrun & _ & Hcover & _).
  - vm_compute. reflexivity.
  - exists data. split; [exact Hrun | exact Hcover].
Defined.

Lemma discoverAlbums_follows_the_index_witness :
  map_keys (albums (snd (discoverAlbums sample_marked sample_fetch sample_index
                                        (new_ContentManager sample_page))))
  = ["first"; "second"].
Proof.
  apply (proj1 (discoverAlbums_follows_the_index sample_marked sample_fetch sample_index
                  (new_ContentManager sample_page) 200%Z "index"
                  ["first"; "gone"; "second"] eq_refl eq_refl
                  ltac:(repeat constructor; cbn; intuition discriminate) eq_refl)).
Defined.

Lemma loadStaticContent_stores_what_loads_witness :
  map_get "news"
    (contentCache (snd (loadStaticContent sample_marked offline_fetch
                                          (new_ContentManager sample_page))))
  = None.
Proof.
  apply (proj2 (loadStaticContent_stores_what_loads sample_marked offline_fetch
                  (new_ContentManager sample_page) "news"
                  (or_intror (or_introl eq_refl)))).
Defined.

Lemma setupNavigationHandlers_binds_fragments_witness :
  bound_sections (snd (setupNavigationHandlers (new_ContentManager sample_page)))
  = ["home"; "music"; "about"; "news"] /\
  setupNavigationHandlers (new_ContentManager page_with_bare_anchor)
  = (Throw TypeError,
     with_bound_sections ["home"; "music"] (new_ContentManager page_with_bare_anchor)).
Proof.
  split.
  - rewrite (proj1 (setupNavigationHandlers_binds_fragments
                      (new_ContentManager sample_page))).
    + reflexivity.
    + repeat constructor; discriminate.
  - apply (proj2 (setupNavigationHandlers_binds_fragments
                    (new_ContentManager page_with_bare_anchor))
                 [Some "#home"; Some "#music"] [Some "#about"; Some "#news"]).
    + reflexivity.
    + repeat constructor; discriminate.
Defined.

Lemma initialize_fails_on_anchor_without_href_witness :
  fst (initialize sample_marked sample_fetch sample_index
                  (new_ContentManager page_with_bare_anchor)) = Throw TypeError.
Proof.
  apply (initialize_fails_on_anchor_without_href sample_marked sample_fetch sample_index
           (new_ContentManager page_with_bare_anchor) 200%Z "index"
           ["first"; "gone"; "second"]
           [Some "#home"; Some "#music"] [Some "#about"; Some "#news"]
           eq_refl eq_refl eq_refl).
  repeat constructor; discriminate.
Defined.

Lemma startup_renders_home_witness :
  fst (startup sample_marked offline_fetch sample_index no_compound
               (new_ContentManager sample_page)) = Throw NetworkError /\
  page (snd (startup sample_marked sample_fetch sample_index no_compound
                     (new_ContentManager sample_page)))
  = set_markdown_content (ById "home") "<p>Welcome.</p>" sample_page.
Proof.
  split.
  - apply (proj1 (startup_renders_home sample_marked offline_fetch sample_index
                    no_compound (new_ContentManager sample_page))).
    reflexivity.
  - apply (proj2 (startup_renders_home sample_marked sample_fetch sample_index
                    no_compound (new_ContentManager sample_page))
                 200%Z "index" ["first"; "gone"; "second"]
                 (mkDoc ∅ "<p>Welcome.</p>") (mkSection (Some EmptyString) None)).
    + reflexivity.
    + reflexivity.
    + repeat constructor; discriminate.
    + vm_compute. reflexivity.
    + reflexivity.
    + cbn. eauto.
Defined.

Lemma loadSection_touches_its_section_only_witness :
  by_id (page (snd (loadSection no_compound "music" (new_ContentManager sample_page))))
  !! "home"
  = by_id sample_page !! "home".
Proof.
  apply (proj1 (loadSection_touches_its_section_only no_compound "music"
                  (new_ContentManager sample_page))).
  discriminate.
Defined.


Lemma formatTime_has_two_digit_seconds_witness :
  (0 <= 65)%Q /\ is_double 65 = true /\ (65 < 2 ^ 55)%Q /\
  formatTime (Finite 65) = "1:05".
Proof.
  split; [discriminate|]. split; [reflexivity|]. split; [reflexivity|].
  apply (proj2 (proj2 (proj2 (formatTime_has_two_digit_seconds 65 ltac:(discriminate)))));
    reflexivity.
Defined.

Lemma catalogue_has_one_card_per_album_witness :
  exists cards,
    by_id (page (snd (loadSection no_compound "music"
                        (snd (discoverAlbums sample_marked sample_fetch sample_index
                                             (new_ContentManager sample_page)))))) !! "music"
    = Some (mkSection None (Some cards)) /\
    map card_dir cards = ["first"; "second"].
Proof.
  destruct (catalogue_has_one_card_per_album no_compound
              (snd (discoverAlbums sample_marked sample_fetch sample_index
                                   (new_ContentManager sample_page)))
              (mkSection None (Some [])) [])
    as (cards & _ & Hgrid & Hdirs & _).
  - reflexivity.
  - reflexivity.
  - vm_compute. repeat constructor; eauto.
  - exists cards. split; [exact Hgrid | exact Hdirs].
Defined.
